(** * The multi-stage test step of ci-operator (package [steps])

    A shallow embedding of [multiStageTestStep] and of the functions that
    synthesise and run its pods, followed by the properties of phase
    sequencing, secret handling, pod synthesis and dependency links.

    Conventions.
    - A Go [error] is an [option error]: [None] is [nil].
    - A Go [map] that may be [nil] is an [option (gmap _ _)].
    - Cluster clients, the parameter source, the build configuration and the
      functions of the package that live in other files are interfaces
      (type classes and records of functions); the step's code is written
      against them.
    - Every call that reaches a client is appended to a trace, so that
      "no pod is created" is a statement about the trace.
    - A run-time panic of the Go program (index out of range, assignment to
      a nil map) is the [None] of the monad [M]. *)

From stdpp Require Import base option list strings gmap.
From Stdlib Require Import ZArith Ascii.
From Stdlib Require DecimalString.

Set Default Proof Using "Type".

(** ** Errors *)

(** [k8s.io/apimachinery/pkg/api/errors]: the reason carried by an API
    status error. *)
Inductive StatusReason : Type :=
| StatusReasonUnknown
| StatusReasonNotFound
| StatusReasonAlreadyExists
| StatusReasonForbidden.

(** Error values.  [Errorf] keeps the format and its operands instead of the
    rendered text; [aggregate] is [utilerrors.aggregate]. *)
#[warnings="-register-all"]
Inductive error : Type :=
| New (message : string)
| StatusError (reason : StatusReason) (message : string)
| Errorf (format : string) (operands : list operand)
| aggregate (errs : list error)
with operand : Type :=
| str (s : string)
| err (e : error).

(** [errors.IsNotFound]. *)
Definition IsNotFound (e : error) : bool :=
  match e with
  | StatusError StatusReasonNotFound _ => true
  | _ => false
  end.

(** [utilerrors.NewAggregate]: [nil] for an empty list.  The elements of an
    [errlist] built by this package are never [nil]. *)
Definition NewAggregate (errlist : list error) : option error :=
  match errlist with
  | [] => None
  | _ :: _ => Some (aggregate errlist)
  end.

(** ** Kubernetes objects ([coreapi], [meta]) *)

Module coreapi.

Record EnvVar : Type := mkEnvVar {
  env_Name : string;
  env_Value : string
}.

Inductive VolumeSource : Type :=
| EmptyDir
| SecretVolume (SecretName : string)
| OtherVolume (kind : string).

Record Volume : Type := mkVolume {
  vol_Name : string;
  vol_Source : VolumeSource
}.

Record VolumeMount : Type := mkVolumeMount {
  mount_Name : string;
  mount_Path : string
}.

Inductive TerminationMessagePolicy : Type :=
| TerminationMessageReadFile
| TerminationMessageFallbackToLogsOnError.

(** Parsed quantities, in milli-units, per resource name. *)
Record ResourceRequirements : Type := mkResources {
  Limits : gmap string Z;
  Requests : gmap string Z
}.

Record Container : Type := mkContainer {
  Image : string;
  Name : string;
  Command : list string;
  Args : list string;
  Env : list EnvVar;
  Resources : ResourceRequirements;
  VolumeMounts : list VolumeMount;
  TerminationPolicy : TerminationMessagePolicy
}.

Record OwnerReference : Type := mkOwner {
  owner_Kind : string;
  owner_Name : string
}.

Record Pod : Type := mkPod {
  pod_Name : string;
  Labels : option (gmap string string);
  Annotations : gmap string string;
  OwnerReferences : list OwnerReference;
  Volumes : list Volume;
  InitContainers : list Container;
  Containers : list Container
}.

Record Secret : Type := mkSecret {
  secret_Name : string
}.

(** Field updates, as Go assigns through a pointer. *)
Definition with_Labels (l : option (gmap string string)) (p : Pod) : Pod :=
  mkPod (pod_Name p) l (Annotations p) (OwnerReferences p) (Volumes p)
        (InitContainers p) (Containers p).
Definition with_OwnerReferences (o : list OwnerReference) (p : Pod) : Pod :=
  mkPod (pod_Name p) (Labels p) (Annotations p) o (Volumes p)
        (InitContainers p) (Containers p).
Definition with_Volumes (v : list Volume) (p : Pod) : Pod :=
  mkPod (pod_Name p) (Labels p) (Annotations p) (OwnerReferences p) v
        (InitContainers p) (Containers p).
Definition with_InitContainers (i : list Container) (p : Pod) : Pod :=
  mkPod (pod_Name p) (Labels p) (Annotations p) (OwnerReferences p)
        (Volumes p) i (Containers p).
Definition with_Containers (c : list Container) (p : Pod) : Pod :=
  mkPod (pod_Name p) (Labels p) (Annotations p) (OwnerReferences p)
        (Volumes p) (InitContainers p) c.

Definition with_Command (c : list string) (k : Container) : Container :=
  mkContainer (Image k) (Name k) c (Args k) (Env k) (Resources k)
              (VolumeMounts k) (TerminationPolicy k).
Definition with_Args (a : list string) (k : Container) : Container :=
  mkContainer (Image k) (Name k) (Command k) a (Env k) (Resources k)
              (VolumeMounts k) (TerminationPolicy k).
Definition with_Env (e : list EnvVar) (k : Container) : Container :=
  mkContainer (Image k) (Name k) (Command k) (Args k) e (Resources k)
              (VolumeMounts k) (TerminationPolicy k).
Definition with_VolumeMounts (m : list VolumeMount) (k : Container) : Container :=
  mkContainer (Image k) (Name k) (Command k) (Args k) (Env k) (Resources k)
              m (TerminationPolicy k).

End coreapi.

(** ** The configuration types of package [api] *)

Module api.

(** [api.ResourceRequirements]: unparsed quantities. *)
Record ResourceRequirements : Type := mkResourceRequirements {
  Requests : gmap string string;
  Limits : gmap string string
}.

(** [api.LiteralTestStep]. *)
Record LiteralTestStep : Type := mkStep {
  As : string;
  From : string;
  Commands : string;
  ArtifactDir : string;
  Resources : ResourceRequirements
}.

(** [api.StepLink]: what a step needs before it can run. *)
Inductive StepLink : Type :=
| InternalImageLink (ref : string)
| ImagesReadyLink
| ReleaseImagesLink
| ExternalImageLink (ref : string)
| ParameterLink (name : string).

(** [api.JobSpec], with the results of its methods [JobNameHash()] and
    [Owner()]. *)
Record JobSpec : Type := mkJobSpec {
  Namespace : string;
  JobNameHash : string;
  Owner : option coreapi.OwnerReference
}.

(** [api.Parameters]: [Get] returns the pair of Go results. *)
Record Parameters : Type := mkParameters {
  Get : string -> string * option error;
  Links : string -> list StepLink
}.

(** The two methods of [api.ReleaseBuildConfiguration] the step calls. *)
Record ReleaseBuildConfiguration : Type := mkConfig {
  IsPipelineImage : string -> bool;
  BuildsImage : string -> bool
}.

End api.

(** ** Test results ([junit]) and container notifiers *)

Module junit.
Record TestCase : Type := mkTestCase {
  Name : string;
  FailureOutput : option string
}.
End junit.

(** What [runPods] hands to [NewTestCaseNotifier]: [NopNotifier], or an
    artifact worker that has been told to collect from one pod. *)
Inductive ContainerNotifier : Type :=
| NopNotifier
| ArtifactWorker (dir namespace podName : string) (containers : list string).

(** ** Interfaces

    The clients act on a cluster state of type [Cluster]; every operation
    takes the namespace first.  Reading a secret does not change the
    cluster. *)

(** [coreclientset.SecretInterface], reached as
    [s.secretClient.Secrets(namespace)]. *)
Class SecretsGetter (Cluster : Type) : Type := {
  Secrets_Get : string -> string -> Cluster -> option error;
  Secrets_Delete : string -> string -> Cluster -> option error * Cluster;
  Secrets_Create : string -> coreapi.Secret -> Cluster -> option error * Cluster
}.

(** [coreclientset.PodInterface], reached as [s.podClient.Pods(namespace)]:
    [DeleteCollection] with a label selector. *)
Class PodClient (Cluster : Type) : Type := {
  Pods_DeleteCollection : string -> string -> Cluster -> option error * Cluster
}.

(** Declarations of packages [steps] and [api], and of the Go library, that
    the step uses and that are defined outside the files at hand. *)
Class Package (Cluster : Type) : Type := {
  PipelineImageStream : string;
  ClusterType : string -> string;
  filepath_Join : list string -> string;
  resourcesFor : api.ResourceRequirements -> error + coreapi.ResourceRequirements;
  generateBasePod :
    api.JobSpec -> string -> string -> list string -> string ->
    coreapi.ResourceRequirements -> string -> error + coreapi.Pod;
  TestCaseNotifier : Type;
  NewTestCaseNotifier : ContainerNotifier -> TestCaseNotifier;
  SubTests : TestCaseNotifier -> string -> list junit.TestCase;
  createOrRestartPod : string -> coreapi.Pod -> Cluster -> option error * Cluster;
  waitForPodCompletion :
    string -> string -> TestCaseNotifier -> Cluster ->
    (option error * TestCaseNotifier) * Cluster
}.

(** ** The step and its run state *)

Definition multiStageTestLabel : string := "ci.openshift.io/multi-stage-test".
Definition clusterProfileMountPath : string :=
  "/var/run/secrets/ci.openshift.io/cluster-profile".
Definition secretMountPath : string :=
  "/var/run/secrets/ci.openshift.io/multi-stage".

(** The fields of [multiStageTestStep] that [newMultiStageTestStep] sets and
    nothing reassigns.  The fields [dry], [releaseInitial], [releaseLatest]
    and [subTests], which [Run] writes, are in [State]; the clients and the
    logger are the interfaces above and the cluster and log of [State]. *)
Record multiStageTestStep : Type := mkMultiStageTestStep {
  name : string;
  profile : string;
  config : api.ReleaseBuildConfiguration;
  params : api.Parameters;
  artifactDir : string;
  jobSpec : api.JobSpec;
  pre : list api.LiteralTestStep;
  test : list api.LiteralTestStep;
  post : list api.LiteralTestStep
}.

(** An object handed to [DryLogger.AddObject]. *)
Inductive Object : Type :=
| SecretObject (secret : coreapi.Secret)
| PodObject (pod : coreapi.Pod).

(** A call issued to a client, with the error it returned. *)
Inductive Call : Type :=
| SecretsGet (namespace secret : string) (result : option error)
| SecretsDelete (namespace secret : string) (result : option error)
| SecretsCreate (namespace : string) (secret : coreapi.Secret) (result : option error)
| CreateOrRestartPod (namespace : string) (pod : coreapi.Pod) (result : option error)
| WaitForPodCompletion (namespace podName : string) (result : option error)
| DeleteCollection (namespace selector : string) (result : option error).

Section Step.

Context {Cluster : Type}.
Context `{!SecretsGetter Cluster, !PodClient Cluster, !Package Cluster}.

Record State : Type := mkState {
  dry : bool;
  releaseInitial : string;
  releaseLatest : string;
  subTests : list junit.TestCase;
  cluster : Cluster;
  logged : list Object;
  calls : list Call
}.

Definition set_dry (b : bool) (st : State) : State :=
  mkState b (releaseInitial st) (releaseLatest st) (subTests st)
          (cluster st) (logged st) (calls st).
Definition set_releaseInitial (v : string) (st : State) : State :=
  mkState (dry st) v (releaseLatest st) (subTests st)
          (cluster st) (logged st) (calls st).
Definition set_releaseLatest (v : string) (st : State) : State :=
  mkState (dry st) (releaseInitial st) v (subTests st)
          (cluster st) (logged st) (calls st).
Definition set_subTests (v : list junit.TestCase) (st : State) : State :=
  mkState (dry st) (releaseInitial st) (releaseLatest st) v
          (cluster st) (logged st) (calls st).
Definition set_cluster (c : Cluster) (st : State) : State :=
  mkState (dry st) (releaseInitial st) (releaseLatest st) (subTests st)
          c (logged st) (calls st).
Definition record (ev : Call) (st : State) : State :=
  mkState (dry st) (releaseInitial st) (releaseLatest st) (subTests st)
          (cluster st) (logged st) (calls st ++ [ev]).

(** *** Two monads: actions that always return, and actions that may panic *)

Definition Action (A : Type) : Type := State -> A * State.
Definition M (A : Type) : Type := State -> option (A * State).

Definition ret {A} (a : A) : Action A := fun st => (a, st).
Definition bind {A B} (m : Action A) (k : A -> Action B) : Action B :=
  fun st => let (a, st1) := m st in k a st1.
Definition gets {A} (f : State -> A) : Action A := fun st => (f st, st).
Definition modify (f : State -> State) : Action unit := fun st => (tt, f st).

Definition retM {A} (a : A) : M A := fun st => Some (a, st).
Definition bindM {A B} (m : M A) (k : A -> M B) : M B :=
  fun st => match m st with
            | Some (a, st1) => k a st1
            | None => None
            end.
Definition lift {A} (m : Action A) : M A := fun st => Some (m st).

Notation "'do' x <- m ; k" := (bind m (fun x => k))
  (at level 10, x name, m at level 100, k at level 200).
Notation "'run' x <- m ; k" := (bindM m (fun x => k))
  (at level 10, x name, m at level 100, k at level 200).

(** *** The client calls, recorded *)

Definition AddObject (o : Object) : Action unit :=
  fun st => (tt, mkState (dry st) (releaseInitial st) (releaseLatest st)
                         (subTests st) (cluster st) (logged st ++ [o]) (calls st)).

Definition secrets_Get (ns secret : string) : Action (option error) :=
  fun st => let r := Secrets_Get ns secret (cluster st) in
            (r, record (SecretsGet ns secret r) st).

Definition secrets_Delete (ns secret : string) : Action (option error) :=
  fun st => let (r, c) := Secrets_Delete ns secret (cluster st) in
            (r, record (SecretsDelete ns secret r) (set_cluster c st)).

Definition secrets_Create (ns : string) (secret : coreapi.Secret) : Action (option error) :=
  fun st => let (r, c) := Secrets_Create ns secret (cluster st) in
            (r, record (SecretsCreate ns secret r) (set_cluster c st)).

Definition pods_DeleteCollection (ns selector : string) : Action (option error) :=
  fun st => let (r, c) := Pods_DeleteCollection ns selector (cluster st) in
            (r, record (DeleteCollection ns selector r) (set_cluster c st)).

Definition call_createOrRestartPod (ns : string) (pod : coreapi.Pod) : Action (option error) :=
  fun st => let (r, c) := createOrRestartPod ns pod (cluster st) in
            (r, record (CreateOrRestartPod ns pod r) (set_cluster c st)).

Definition call_waitForPodCompletion (ns podName : string) (notifier : TestCaseNotifier)
  : Action (option error * TestCaseNotifier) :=
  fun st => let '(r, n, c) := waitForPodCompletion ns podName notifier (cluster st) in
            ((r, n), record (WaitForPodCompletion ns podName r) (set_cluster c st)).

(** *** Helpers of the Go library *)

Definition nl : string := String.String "010"%char "".

(** [strings.Replace(s, "_", "-", -1)]. *)
Fixpoint replace_underscores (s : string) : string :=
  match s with
  | String.EmptyString => String.EmptyString
  | String.String c rest =>
      String.String (if Ascii.eqb c "_"%char then "-"%char else c) (replace_underscores rest)
  end.

(** *** Construction and small methods *)

(** [api.TestStepConfiguration], with the fields of its
    [MultiStageTestConfigurationLiteral] that the constructor reads. *)
Record TestStepConfiguration : Type := mkTestStepConfiguration {
  test_As : string;
  test_ClusterProfile : string;
  test_Pre : list api.LiteralTestStep;
  test_Test : list api.LiteralTestStep;
  test_Post : list api.LiteralTestStep
}.

Definition newMultiStageTestStep (testConfig : TestStepConfiguration)
    (config : api.ReleaseBuildConfiguration) (params : api.Parameters)
    (artifactDir : string) (jobSpec : api.JobSpec) : multiStageTestStep :=
  let artifactDir :=
    if decide (artifactDir ≠ "") then filepath_Join [artifactDir; test_As testConfig]
    else artifactDir in
  mkMultiStageTestStep (test_As testConfig) (test_ClusterProfile testConfig)
    config params artifactDir jobSpec
    (test_Pre testConfig) (test_Test testConfig) (test_Post testConfig).

Definition Name (s : multiStageTestStep) : string := name s.

Definition profileSecretName (s : multiStageTestStep) : string :=
  name s +:+ "-cluster-profile".

Definition Description (s : multiStageTestStep) : string :=
  "Run multi-stage test " +:+ name s.

Definition Done (s : multiStageTestStep) : bool * option error := (false, None).

Definition Creates (s : multiStageTestStep) : list api.StepLink := [].

Definition Provides (s : multiStageTestStep)
  : option (gmap string string) * option api.StepLink := (None, None).

(** *** [Requires] *)

(** The loop of [Requires] over the steps, with its three variables.
    [api.PipelineImageStreamTagReference(step.From)] is a conversion between
    string types. *)
Fixpoint Requires_loop (s : multiStageTestStep) (steps : list api.LiteralTestStep)
    (ret : list api.StepLink) (needsImages needsRelease : bool)
  : list api.StepLink * bool * bool :=
  match steps with
  | [] => (ret, needsImages, needsRelease)
  | step :: rest =>
      if api.IsPipelineImage (config s) (api.From step) then
        Requires_loop s rest (ret ++ [api.InternalImageLink (api.From step)])
                      needsImages needsRelease
      else if api.BuildsImage (config s) (api.From step) then
        Requires_loop s rest ret true needsRelease
      else
        Requires_loop s rest ret needsImages true
  end.

Definition Requires (s : multiStageTestStep) : list api.StepLink :=
  let '(ret, needsImages, needsRelease) :=
    Requires_loop s ((pre s ++ test s) ++ post s) [] false false in
  let ret := if needsImages then ret ++ [api.ImagesReadyLink] else ret in
  let ret := if needsRelease then ret ++ [api.ReleaseImagesLink] else ret in
  if decide (profile s ≠ "") then
    (ret ++ api.Links (params s) "RELEASE_IMAGE_INITIAL")
      ++ api.Links (params s) "RELEASE_IMAGE_LATEST"
  else ret.

(** *** Pod synthesis *)

(** An assignment through [&pod.Spec.Containers[0]]; indexing an empty slice
    panics. *)
Definition update_main (f : coreapi.Container -> coreapi.Container)
    (pod : coreapi.Pod) : option coreapi.Pod :=
  match coreapi.Containers pod with
  | container :: rest => Some (coreapi.with_Containers (f container :: rest) pod)
  | [] => None
  end.

(** [pod.Labels[key] = value]; assigning into a nil map panics. *)
Definition set_label (key value : string) (pod : coreapi.Pod) : option coreapi.Pod :=
  match coreapi.Labels pod with
  | Some labels => Some (coreapi.with_Labels (Some (<[key := value]> labels)) pod)
  | None => None
  end.

Definition append_Env (vars : list coreapi.EnvVar) (c : coreapi.Container)
  : coreapi.Container :=
  coreapi.with_Env (coreapi.Env c ++ vars) c.

Definition append_VolumeMounts (mounts : list coreapi.VolumeMount)
    (c : coreapi.Container) : coreapi.Container :=
  coreapi.with_VolumeMounts (coreapi.VolumeMounts c ++ mounts) c.

Definition append_Volumes (volumes : list coreapi.Volume) (pod : coreapi.Pod)
  : coreapi.Pod :=
  coreapi.with_Volumes (coreapi.Volumes pod ++ volumes) pod.

Definition wrapperVolume : string := "secret-wrapper".
Definition wrapperDir : string := "/tmp/secret-wrapper".
Definition wrapperBin : string := filepath_Join [wrapperDir; "secret-wrapper"].
Definition wrapperMount : coreapi.VolumeMount :=
  coreapi.mkVolumeMount wrapperVolume wrapperDir.

(** The init container that copies the wrapper into the shared volume. *)
Definition wrapperInitContainer : coreapi.Container :=
  coreapi.mkContainer
    "registry.svc.ci.openshift.org/ci/secret-wrapper:latest"
    "cp-secret-wrapper"
    ["cp"]
    ["/bin/secret-wrapper"; wrapperBin]
    []
    (coreapi.mkResources ∅ ∅)
    [wrapperMount]
    coreapi.TerminationMessageFallbackToLogsOnError.

Definition addSecretWrapper (pod : coreapi.Pod) : option coreapi.Pod :=
  let pod := append_Volumes [coreapi.mkVolume wrapperVolume coreapi.EmptyDir] pod in
  let pod :=
    coreapi.with_InitContainers (coreapi.InitContainers pod ++ [wrapperInitContainer]) pod in
  update_main
    (fun container =>
       let container :=
         coreapi.with_Args
           ([] ++ (coreapi.Command container ++ coreapi.Args container)) container in
       let container := coreapi.with_Command [wrapperBin] container in
       append_VolumeMounts [wrapperMount] container)
    pod.

Definition addSecret (secret : string) (pod : coreapi.Pod) : option coreapi.Pod :=
  let pod :=
    append_Volumes [coreapi.mkVolume secret (coreapi.SecretVolume secret)] pod in
  update_main (append_VolumeMounts [coreapi.mkVolumeMount secret secretMountPath]) pod.

Definition addProfile (name profile : string) (pod : coreapi.Pod) : option coreapi.Pod :=
  let volumeName := "cluster-profile" in
  let pod :=
    append_Volumes [coreapi.mkVolume volumeName (coreapi.SecretVolume name)] pod in
  update_main
    (fun container =>
       let container :=
         append_VolumeMounts
           [coreapi.mkVolumeMount volumeName clusterProfileMountPath] container in
       append_Env [coreapi.mkEnvVar "CLUSTER_TYPE" (ClusterType profile)] container)
    pod.

(** The image a step's pod runs: lines 776-779 of the loop. *)
Definition imageFor (s : multiStageTestStep) (step : api.LiteralTestStep) : string :=
  let image := api.From step in
  if api.IsPipelineImage (config s) image
  then PipelineImageStream +:+ ":" +:+ image
  else image.

(** The command handed to [generateBasePod]. *)
Definition commandFor (step : api.LiteralTestStep) : list string :=
  ["/bin/bash"; "-c"; "#!/bin/bash" +:+ nl +:+ "set -eu" +:+ nl +:+ api.Commands step].

(** What [generatePods] does to the pod that [generateBasePod] returned. *)
Definition decoratePod (s : multiStageTestStep) (releaseInitial releaseLatest : string)
    (pod : coreapi.Pod) : option coreapi.Pod :=
  pod ← set_label multiStageTestLabel (name s) pod;
  pod ← addSecretWrapper pod;
  pod ← update_main
          (append_Env
             [coreapi.mkEnvVar "NAMESPACE" (api.Namespace (jobSpec s));
              coreapi.mkEnvVar "JOB_NAME_SAFE" (replace_underscores (name s));
              coreapi.mkEnvVar "JOB_NAME_HASH" (api.JobNameHash (jobSpec s))])
          pod;
  let pod :=
    match api.Owner (jobSpec s) with
    | Some owner =>
        coreapi.with_OwnerReferences (coreapi.OwnerReferences pod ++ [owner]) pod
    | None => pod
    end in
  pod ← (if decide (profile s ≠ "") then
           pod ← addProfile (profileSecretName s) (profile s) pod;
           update_main
             (append_Env
                [coreapi.mkEnvVar "KUBECONFIG" (filepath_Join [secretMountPath; "kubeconfig"]);
                 coreapi.mkEnvVar "RELEASE_IMAGE_INITIAL" releaseInitial;
                 coreapi.mkEnvVar "RELEASE_IMAGE_LATEST" releaseLatest])
             pod
         else Some pod);
  addSecret (name s) pod.

(** One iteration of the loop of [generatePods]: [inl] is an error appended
    to [errs] before [continue], [inr] a pod appended to [ret], [None] a
    panic. *)
Definition generatePod (s : multiStageTestStep) (releaseInitial releaseLatest : string)
    (step : api.LiteralTestStep) : option (error + coreapi.Pod) :=
  let image := imageFor s step in
  match resourcesFor (api.Resources step) with
  | inl e => Some (inl e)
  | inr resources =>
      let name := name s +:+ "-" +:+ api.As step in
      match generateBasePod (jobSpec s) name (api.As step) (commandFor step)
                            image resources (api.ArtifactDir step) with
      | inl e => Some (inl e)
      | inr pod => inr <$> decoratePod s releaseInitial releaseLatest pod
      end
  end.

Fixpoint generatePods_loop (s : multiStageTestStep) (releaseInitial releaseLatest : string)
    (steps : list api.LiteralTestStep) (ret : list coreapi.Pod) (errs : list error)
  : option (list coreapi.Pod * list error) :=
  match steps with
  | [] => Some (ret, errs)
  | step :: rest =>
      match generatePod s releaseInitial releaseLatest step with
      | None => None
      | Some (inl e) =>
          generatePods_loop s releaseInitial releaseLatest rest ret (errs ++ [e])
      | Some (inr pod) =>
          generatePods_loop s releaseInitial releaseLatest rest (ret ++ [pod]) errs
      end
  end.

Definition generatePods (s : multiStageTestStep) (releaseInitial releaseLatest : string)
    (steps : list api.LiteralTestStep) : option (list coreapi.Pod * option error) :=
  '(ret, errs) ← generatePods_loop s releaseInitial releaseLatest steps [] [];
  Some (ret, NewAggregate errs).

(** *** The results secret *)

Definition createSecret (s : multiStageTestStep) : Action (option error) :=
  let secret := coreapi.mkSecret (name s) in
  do dry <- gets dry;
  if dry then
    do _ <- AddObject (SecretObject secret);
    ret None
  else
    let create := secrets_Create (api.Namespace (jobSpec s)) secret in
    do deleted <- secrets_Delete (api.Namespace (jobSpec s)) (name s);
    match deleted with
    | Some e =>
        if negb (IsNotFound e)
        then ret (Some (Errorf "cannot delete secret %q: %v" [str (name s); err e]))
        else create
    | None => create
    end.

(** *** Running pods

    [runPods] and [runPod] each start a goroutine that blocks on
    [ctx.Done()].  The functions below are the calling goroutine;
    [cleanup] is what the goroutine of [runPods] does once the context is
    done.  The goroutine of [runPod] calls [notifier.Cancel()], which acts
    on the notifier alone. *)

Definition deletePods (ns test : string) : Action (option error) :=
  do e <- pods_DeleteCollection ns (multiStageTestLabel +:+ "=" +:+ test);
  match e with
  | Some e' => if negb (IsNotFound e') then ret (Some e') else ret None
  | None => ret None
  end.

Definition cleanup (s : multiStageTestStep) : Action unit :=
  do dry <- gets dry;
  if negb dry then
    do _ <- deletePods (api.Namespace (jobSpec s)) (name s);
    ret tt
  else ret tt.

Definition runPod (s : multiStageTestStep) (pod : coreapi.Pod)
    (notifier : TestCaseNotifier) : Action (option error) :=
  do dry <- gets dry;
  if dry then
    do _ <- AddObject (PodObject pod);
    ret None
  else
    do created <- call_createOrRestartPod (api.Namespace (jobSpec s)) pod;
    match created with
    | Some e =>
        ret (Some (Errorf "failed to create or restart %q pod: %v"
                          [str (coreapi.pod_Name pod); err e]))
    | None =>
        do waited <- call_waitForPodCompletion (api.Namespace (jobSpec s))
                       (coreapi.pod_Name pod) notifier;
        match waited with
        | (Some e, _) =>
            ret (Some (Errorf "%q pod %q failed: %v"
                              [str (name s); str (coreapi.pod_Name pod); err e]))
        | (None, notifier) =>
            do _ <- modify (fun st =>
                      set_subTests
                        (subTests st ++
                           SubTests notifier
                             (Description s +:+ " - " +:+ coreapi.pod_Name pod +:+ " "))
                        st);
            ret None
        end
    end.

(** The notifier [runPods] picks for a pod: the artifact worker when one of
    the containers is named "artifacts". *)
Definition notifierFor (s : multiStageTestStep) (pod : coreapi.Pod) : ContainerNotifier :=
  match coreapi.Containers pod with
  | first :: _ =>
      if existsb (fun c => bool_decide (coreapi.Name c = "artifacts")) (coreapi.Containers pod)
      then
        let container := coreapi.Name first in
        ArtifactWorker (filepath_Join [artifactDir s; container])
                       (api.Namespace (jobSpec s))
                       (coreapi.pod_Name pod) [container]
      else NopNotifier
  | [] => NopNotifier
  end.

(** The loop of [runPods], with its variable [errs]. *)
Fixpoint runPods_loop (s : multiStageTestStep) (pods : list coreapi.Pod)
    (shortCircuit : bool) (errs : list error) : Action (list error) :=
  match pods with
  | [] => ret errs
  | pod :: rest =>
      do failed <- runPod s pod (NewTestCaseNotifier (notifierFor s pod));
      match failed with
      | Some e =>
          let errs := errs ++ [e] in
          if shortCircuit then ret errs
          else runPods_loop s rest shortCircuit errs
      | None => runPods_loop s rest shortCircuit errs
      end
  end.

Definition runPods (s : multiStageTestStep) (pods : list coreapi.Pod)
    (shortCircuit : bool) : Action (option error) :=
  do errs <- runPods_loop s pods shortCircuit [];
  ret (NewAggregate errs).

(** *** Phases *)

Definition runSteps (s : multiStageTestStep) (steps : list api.LiteralTestStep)
    (shortCircuit : bool) : M (option error) :=
  fun st =>
    match generatePods s (releaseInitial st) (releaseLatest st) steps with
    | None => None
    | Some (_, Some e) => Some (Some e, st)
    | Some (pods, None) => Some (runPods s pods shortCircuit st)
    end.

(** The block of [Run] guarded by [s.profile != ""]; the result is the
    error [Run] returns from inside it. *)
Definition resolveProfile (s : multiStageTestStep) : Action (option error) :=
  if decide (profile s ≠ "") then
    let secret := profileSecretName s in
    do found <- secrets_Get (api.Namespace (jobSpec s)) secret;
    match found with
    | Some e => ret (Some (Errorf "could not find secret %q: %v" [str secret; err e]))
    | None =>
        let '(initial, e) := api.Get (params s) "RELEASE_IMAGE_INITIAL" in
        do _ <- modify (set_releaseInitial initial);
        match e with
        | Some e => ret (Some e)
        | None =>
            let '(latest, e) := api.Get (params s) "RELEASE_IMAGE_LATEST" in
            do _ <- modify (set_releaseLatest latest);
            ret e
        end
    end
  else ret None.

Definition Run (s : multiStageTestStep) (dry : bool) : M (option error) :=
  run _ <- lift (modify (set_dry dry));
  run unresolved <- lift (resolveProfile s);
  match unresolved with
  | Some e => retM (Some e)
  | None =>
      run secretFailed <- lift (createSecret s);
      match secretFailed with
      | Some e => retM (Some (Errorf "failed to create secret: %v" [err e]))
      | None =>
          run preFailed <- runSteps s (pre s) true;
          run errs <-
            match preFailed with
            | Some e => retM [Errorf "%q pre steps failed: %v" [str (name s); err e]]
            | None =>
                run testFailed <- runSteps s (test s) true;
                match testFailed with
                | Some e => retM [Errorf "%q test steps failed: %v" [str (name s); err e]]
                | None => retM []
                end
            end;
          run postFailed <- runSteps s (post s) false;
          let errs :=
            match postFailed with
            | Some e => errs ++ [Errorf "%q post steps failed: %v" [str (name s); err e]]
            | None => errs
            end in
          retM (NewAggregate errs)
      end
  end.


End Step.

Arguments State : clear implicits.

(** ** A small cluster to run the step on

    An in-memory cluster and stand-ins for the functions of the package that
    are defined elsewhere, in the manner of the fake clients used by the Go
    tests.  They serve the examples at the end; the theorems are stated for
    every implementation of the interfaces. *)

Module Fake.

(** Secrets by name; pods as submitted; the names of pods the cluster
    refuses, and of pods whose containers exit with a failure; whether
    secrets may be deleted. *)
Record Cluster : Type := mkCluster {
  secrets : list string;
  pods : list coreapi.Pod;
  refused : list string;
  failing : list string;
  readOnly : bool
}.

Definition notFound (kind name : string) : error :=
  StatusError StatusReasonNotFound (kind +:+ " " +:+ name +:+ " not found").

Definition Get (ns name : string) (c : Cluster) : option error :=
  if bool_decide (name ∈ secrets c) then None else Some (notFound "secrets" name).

Definition Delete (ns name : string) (c : Cluster) : option error * Cluster :=
  if readOnly c then (Some (StatusError StatusReasonForbidden "secrets are read-only"), c)
  else if bool_decide (name ∈ secrets c) then
    (None, mkCluster (filter (λ n, n ≠ name) (secrets c)) (pods c) (refused c)
                     (failing c) (readOnly c))
  else (Some (notFound "secrets" name), c).

Definition Create (ns : string) (secret : coreapi.Secret) (c : Cluster)
  : option error * Cluster :=
  if bool_decide (coreapi.secret_Name secret ∈ secrets c) then
    (Some (StatusError StatusReasonAlreadyExists "secret already exists"), c)
  else
    (None, mkCluster (secrets c ++ [coreapi.secret_Name secret]) (pods c) (refused c)
                     (failing c) (readOnly c)).

Definition DeleteCollection (ns selector : string) (c : Cluster)
  : option error * Cluster :=
  (None, mkCluster (secrets c) [] (refused c) (failing c) (readOnly c)).

#[export] Instance secretsGetter : SecretsGetter Cluster :=
  {| Secrets_Get := Get; Secrets_Delete := Delete; Secrets_Create := Create |}.

#[export] Instance podClient : PodClient Cluster :=
  {| Pods_DeleteCollection := DeleteCollection |}.

(** The notifier remembers the container states of the last pod it saw:
    container name and exit code. *)
Record Notifier : Type := mkNotifier {
  nested : ContainerNotifier;
  lastPod : option (list (string * Z))
}.

(** One test case per terminated container. *)
Definition subTestsOf (n : Notifier) (prefix : string) : list junit.TestCase :=
  match lastPod n with
  | None => []
  | Some statuses =>
      map (λ '(container, code),
             junit.mkTestCase (prefix +:+ "container " +:+ container)
               (if bool_decide (code = 0%Z) then None else Some "container failed"))
          statuses
  end.

Definition create (ns : string) (pod : coreapi.Pod) (c : Cluster) : option error * Cluster :=
  if bool_decide (coreapi.pod_Name pod ∈ refused c) then
    (Some (StatusError StatusReasonForbidden "pod refused"), c)
  else
    (None, mkCluster (secrets c)
                     (filter (λ p, coreapi.pod_Name p ≠ coreapi.pod_Name pod) (pods c) ++ [pod])
                     (refused c) (failing c) (readOnly c)).

(** Every container of the pod starts and terminates; the exit code is 1
    when the pod is among the failing ones. *)
Definition wait (ns name : string) (n : Notifier) (c : Cluster)
  : (option error * Notifier) * Cluster :=
  match List.find (λ p, bool_decide (coreapi.pod_Name p = name)) (pods c) with
  | None => ((Some (notFound "pods" name), n), c)
  | Some pod =>
      let failed := bool_decide (name ∈ failing c) in
      let statuses :=
        map (λ k, (coreapi.Name k, if failed then 1%Z else 0%Z)) (coreapi.Containers pod) in
      ((if failed then Some (New "the pod failed") else None,
        mkNotifier (nested n) (Some statuses)), c)
  end.

(** Decimal quantities only. *)
Fixpoint digits (s : string) (acc : Z) : option Z :=
  match s with
  | String.EmptyString => Some acc
  | String.String ch rest =>
      let n := Z.of_nat (nat_of_ascii ch) in
      if bool_decide (48 ≤ n ≤ 57)%Z then digits rest (10 * acc + (n - 48))%Z else None
  end.

Definition parseQuantity (s : string) : option Z :=
  if bool_decide (s = "") then None else digits s 0%Z.

Definition resources (r : api.ResourceRequirements) : error + coreapi.ResourceRequirements :=
  if bool_decide (map_Forall (λ _ v, is_Some (parseQuantity v)) (api.Limits r)
                  ∧ map_Forall (λ _ v, is_Some (parseQuantity v)) (api.Requests r))
  then inr (coreapi.mkResources (omap parseQuantity (api.Limits r))
                                (omap parseQuantity (api.Requests r)))
  else inl (New "quantities must match the regular expression").

Definition basePod (js : api.JobSpec) (podName containerName : string)
    (command : list string) (image : string) (res : coreapi.ResourceRequirements)
    (artifactDir : string) : error + coreapi.Pod :=
  if bool_decide (containerName = "") then inl (New "the container has no name")
  else
    inr (coreapi.mkPod podName (Some {[ "created-by-ci" := "true" ]}) ∅ [] [] []
           (coreapi.mkContainer image containerName command [] [] res []
              coreapi.TerminationMessageFallbackToLogsOnError
            :: if bool_decide (artifactDir = "") then []
               else [coreapi.mkContainer "" "artifacts" ["/bin/sh"] [] []
                       (coreapi.mkResources ∅ ∅) []
                       coreapi.TerminationMessageFallbackToLogsOnError])).

Fixpoint join (elems : list string) : string :=
  match elems with
  | [] => ""
  | [e] => e
  | e :: rest => e +:+ "/" +:+ join rest
  end.

#[export] Instance package : Package Cluster :=
  {| PipelineImageStream := "pipeline";
     ClusterType := λ profile, profile;
     filepath_Join := join;
     resourcesFor := resources;
     generateBasePod := basePod;
     TestCaseNotifier := Notifier;
     NewTestCaseNotifier := λ nested, mkNotifier nested None;
     SubTests := subTestsOf;
     createOrRestartPod := create;
     waitForPodCompletion := wait |}.

Definition noResources : api.ResourceRequirements :=
  api.mkResourceRequirements ∅ ∅.

Definition step (as_ from : string) : api.LiteralTestStep :=
  api.mkStep as_ from "make test" "" noResources.

Definition badStep (as_ : string) : api.LiteralTestStep :=
  api.mkStep as_ "src" "make test" ""
    (api.mkResourceRequirements {[ "cpu" := "lots" ]} ∅).

Definition buildConfig : api.ReleaseBuildConfiguration :=
  api.mkConfig (λ image, bool_decide (image ∈ ["src"; "bin"]))
               (λ image, bool_decide (image ∈ ["installer"])).

Definition parameters : api.Parameters :=
  api.mkParameters
    (λ name, if bool_decide (name = "RELEASE_IMAGE_INITIAL") then ("registry/initial", None)
             else if bool_decide (name = "RELEASE_IMAGE_LATEST") then ("registry/latest", None)
             else ("", Some (New "no such parameter")))
    (λ name, [api.ParameterLink name]).

Definition job : api.JobSpec := api.mkJobSpec "ci-op-1" "abc12" None.

Definition stepOf (profile : string) (pre test post : list api.LiteralTestStep)
  : multiStageTestStep :=
  mkMultiStageTestStep "e2e" profile buildConfig parameters "/artifacts" job pre test post.

Definition emptyCluster : Cluster := mkCluster [] [] [] [] false.

Definition start (c : Cluster) : State Cluster :=
  mkState false "" "" [] c [] [].

(** A test with one step per phase, and a cluster on which the pod of the
    pre step fails. *)
Definition threePhases (profile : string) : multiStageTestStep :=
  stepOf profile [step "setup" "src"] [step "e2e" "installer"] [step "gather" "cli"].

Definition setupFails : Cluster := mkCluster [] [] [] ["e2e-setup"] false.

(** The pods of a list of steps, as [generatePods] returns them. *)
Definition podsOf (s : multiStageTestStep) (steps : list api.LiteralTestStep)
  : list coreapi.Pod :=
  match generatePods s "" "" steps with
  | Some (pods, _) => pods
  | None => []
  end.

(** Three pods of one phase, the second of which fails. *)
Definition threePods : list coreapi.Pod :=
  podsOf (stepOf "" [] [] []) [step "a" "src"; step "b" "src"; step "c" "src"].

Definition secondFails : Cluster := mkCluster [] [] [] ["e2e-b"] false.

Definition secondPod : coreapi.Pod :=
  default (coreapi.mkPod "" None ∅ [] [] [] []) (threePods !! 1%nat).

(** The state in which the phases of [threePhases ""] start on [setupFails]:
    the results secret has been created. *)
Definition secretInPlace : State Cluster :=
  (createSecret (threePhases "") (start setupFails)).2.

(** The pod of the pre step, and the cluster once it has been submitted. *)
Definition setupPod : coreapi.Pod :=
  default (coreapi.mkPod "" None ∅ [] [] [] [])
          (podsOf (threePhases "") [step "setup" "src"] !! 0%nat).

Definition setupSubmitted : Cluster :=
  (create "ci-op-1" setupPod (cluster secretInPlace)).2.

(** A cluster that refuses to delete secrets. *)
Definition readOnlyCluster : Cluster := mkCluster [] [] [] [] true.

(** A dry run about to start. *)
Definition dryStart : State Cluster := mkState true "" "" [] emptyCluster [] [].

(** A step whose resource request cannot be parsed, between two that can be
    synthesised. *)
Definition oneBadStep : list api.LiteralTestStep :=
  [step "a" "src"; badStep "b"; step "c" "cli"].

End Fake.

(** ** Vocabulary of the properties *)

Section Vocabulary.

Context {Cluster : Type}.
Context `{!SecretsGetter Cluster, !PodClient Cluster, !Package Cluster}.

(** What the step relies on from [generateBasePod]: the pod has a label map
    and a first container. *)
Definition base_pods_well_formed : Prop :=
  ∀ js podName containerName command image res artifactDir pod,
    generateBasePod js podName containerName command image res artifactDir = inr pod →
    is_Some (coreapi.Labels pod) ∧ coreapi.Containers pod ≠ [].

(** The first container of the base pod runs the image that was passed. *)
Definition base_pods_use_image : Prop :=
  ∀ js podName containerName command image res artifactDir pod,
    generateBasePod js podName containerName command image res artifactDir = inr pod →
    ∃ c rest, coreapi.Containers pod = c :: rest ∧ coreapi.Image c = image.

(** The result of the two fallible calls of one iteration of [generatePods]. *)
Definition basePodOf (s : multiStageTestStep) (step : api.LiteralTestStep)
  : error + coreapi.Pod :=
  match resourcesFor (api.Resources step) with
  | inl e => inl e
  | inr resources =>
      generateBasePod (jobSpec s) (name s +:+ "-" +:+ api.As step) (api.As step)
        (commandFor step) (imageFor s step) resources (api.ArtifactDir step)
  end.

(** The synthesis error of a step, if it has one. *)
Definition synthesisError (s : multiStageTestStep) (step : api.LiteralTestStep)
  : option error :=
  match basePodOf s step with
  | inl e => Some e
  | inr _ => None
  end.

(** The steps that have no synthesis error, each with its base pod. *)
Definition synthesized (s : multiStageTestStep) (steps : list api.LiteralTestStep)
  : list (api.LiteralTestStep * coreapi.Pod) :=
  omap (λ step, match basePodOf s step with
                | inl _ => None
                | inr base => Some (step, base)
                end) steps.

(** How [Requires] sees the image source of a step. *)
Inductive ImageSource : Type :=
| PipelineImage
| BuiltImage
| ReleaseImage.

Definition classify (c : api.ReleaseBuildConfiguration) (from : string) : ImageSource :=
  if api.IsPipelineImage c from then PipelineImage
  else if api.BuildsImage c from then BuiltImage
  else ReleaseImage.

Definition uses (c : api.ReleaseBuildConfiguration) (source : ImageSource)
    (step : api.LiteralTestStep) : bool :=
  match classify c (api.From step), source with
  | PipelineImage, PipelineImage | BuiltImage, BuiltImage | ReleaseImage, ReleaseImage => true
  | _, _ => false
  end.

(** Running every pod in turn, whatever the earlier ones returned. *)
Fixpoint attemptAll (s : multiStageTestStep) (pods : list coreapi.Pod)
  : Action (list (option error)) :=
  match pods with
  | [] => ret []
  | pod :: rest =>
      bind (runPod s pod (NewTestCaseNotifier (notifierFor s pod)))
           (λ r, bind (attemptAll s rest) (λ rs, ret (r :: rs)))
  end.

(** The pods submitted to the cluster, in order. *)
Definition submitted (trace : list Call) : list coreapi.Pod :=
  omap (λ c, match c with CreateOrRestartPod _ pod _ => Some pod | _ => None end) trace.

(** The calls that can change the cluster or wait on it: all but the reads
    of secrets. *)
Definition mutating (c : Call) : bool :=
  match c with
  | SecretsGet _ _ _ => false
  | _ => true
  end.

Definition failure (r : option error) : bool :=
  match r with Some _ => true | None => false end.

(** What a synthesised pod keeps of its base pod and of the wrapper. *)
Record decorated (base pod : coreapi.Pod) : Prop := mkDecorated {
  decorated_main :
    ∃ c c' rest,
      coreapi.Containers base = c :: rest ∧
      coreapi.Containers pod = c' :: rest ∧
      coreapi.Image c' = coreapi.Image c ∧
      coreapi.Name c' = coreapi.Name c ∧
      coreapi.Args c' = coreapi.Command c ++ coreapi.Args c ∧
      coreapi.Command c' = [wrapperBin] ∧
      wrapperMount ∈ coreapi.VolumeMounts c';
  decorated_init :
    coreapi.InitContainers pod = coreapi.InitContainers base ++ [wrapperInitContainer];
  decorated_volume :
    coreapi.mkVolume wrapperVolume coreapi.EmptyDir ∈ coreapi.Volumes pod;
  decorated_name : coreapi.pod_Name pod = coreapi.pod_Name base
}.

(** The state after the dry logger was handed some objects. *)
Definition logging (objects : list Object) (st : State Cluster) : State Cluster :=
  mkState (dry st) (releaseInitial st) (releaseLatest st) (subTests st)
          (cluster st) (logged st ++ objects) (calls st).

(** Nothing but reads of secrets happened between two states. *)
Record untouched (st st' : State Cluster) : Prop := mkUntouched {
  untouched_cluster : cluster st' = cluster st;
  untouched_calls : filter mutating (calls st') = filter mutating (calls st);
  untouched_subTests : subTests st' = subTests st;
  untouched_dry : dry st' = dry st
}.


(** The errors [Run] collects from the results of the three phases. *)
Definition phaseErrors (s : multiStageTestStep) (preFailed testFailed postFailed : option error)
  : list error :=
  match preFailed with
  | Some e => [Errorf "%q pre steps failed: %v" [str (name s); err e]]
  | None =>
      match testFailed with
      | Some e => [Errorf "%q test steps failed: %v" [str (name s); err e]]
      | None => []
      end
  end
  ++ match postFailed with
     | Some e => [Errorf "%q post steps failed: %v" [str (name s); err e]]
     | None => []
     end.


End Vocabulary.

(** ** Vocabulary of the further properties *)

Section Shapes.

Context {Cluster : Type}.
Context `{!SecretsGetter Cluster, !PodClient Cluster, !Package Cluster}.

(** The environment [generatePods] appends to the first container, in the
    order of the appends: those of the loop body, with the one of
    [addProfile] in between. *)
Definition addedEnv (s : multiStageTestStep) (releaseInitial releaseLatest : string)
  : list coreapi.EnvVar :=
  [coreapi.mkEnvVar "NAMESPACE" (api.Namespace (jobSpec s));
   coreapi.mkEnvVar "JOB_NAME_SAFE" (replace_underscores (name s));
   coreapi.mkEnvVar "JOB_NAME_HASH" (api.JobNameHash (jobSpec s))]
  ++ (if decide (profile s ≠ "") then
        [coreapi.mkEnvVar "CLUSTER_TYPE" (ClusterType (profile s));
         coreapi.mkEnvVar "KUBECONFIG" (filepath_Join [secretMountPath; "kubeconfig"]);
         coreapi.mkEnvVar "RELEASE_IMAGE_INITIAL" releaseInitial;
         coreapi.mkEnvVar "RELEASE_IMAGE_LATEST" releaseLatest]
      else []).

(** The volumes appended to the pod, and the mounts appended to its first
    container, by [addSecretWrapper], [addProfile] and [addSecret]. *)
Definition addedVolumes (s : multiStageTestStep) : list coreapi.Volume :=
  [coreapi.mkVolume "secret-wrapper" coreapi.EmptyDir]
  ++ (if decide (profile s ≠ "")
      then [coreapi.mkVolume "cluster-profile"
              (coreapi.SecretVolume (name s +:+ "-cluster-profile"))]
      else [])
  ++ [coreapi.mkVolume (name s) (coreapi.SecretVolume (name s))].

Definition addedMounts (s : multiStageTestStep) : list coreapi.VolumeMount :=
  [coreapi.mkVolumeMount "secret-wrapper" "/tmp/secret-wrapper"]
  ++ (if decide (profile s ≠ "")
      then [coreapi.mkVolumeMount "cluster-profile"
              "/var/run/secrets/ci.openshift.io/cluster-profile"]
      else [])
  ++ [coreapi.mkVolumeMount (name s) "/var/run/secrets/ci.openshift.io/multi-stage"].

(** The pod synthesised for a step from its base pod: the base pod with the
    test's label set, the owner of the job appended, the volumes, mounts and
    environment of the step appended, and the command of the first container
    put behind the wrapper. *)
Definition shaped (s : multiStageTestStep) (releaseInitial releaseLatest : string)
    (sb : api.LiteralTestStep * coreapi.Pod) (pod : coreapi.Pod) : Prop :=
  ∃ labels c rest,
    coreapi.Labels sb.2 = Some labels ∧
    coreapi.Containers sb.2 = c :: rest ∧
    pod = coreapi.mkPod
            (coreapi.pod_Name sb.2)
            (Some (<[multiStageTestLabel := name s]> labels))
            (coreapi.Annotations sb.2)
            (coreapi.OwnerReferences sb.2
               ++ match api.Owner (jobSpec s) with Some o => [o] | None => [] end)
            (coreapi.Volumes sb.2 ++ addedVolumes s)
            (coreapi.InitContainers sb.2 ++ [wrapperInitContainer])
            (coreapi.mkContainer
               (coreapi.Image c) (coreapi.Name c) [wrapperBin]
               (coreapi.Command c ++ coreapi.Args c)
               (coreapi.Env c ++ addedEnv s releaseInitial releaseLatest)
               (coreapi.Resources c)
               (coreapi.VolumeMounts c ++ addedMounts s)
               (coreapi.TerminationPolicy c)
             :: rest).


(** Every mount of the first container names a volume of the pod. *)
Definition mounts_resolved (pod : coreapi.Pod) : Prop :=
  ∀ c rest m,
    coreapi.Containers pod = c :: rest → m ∈ coreapi.VolumeMounts c →
    coreapi.mount_Name m ∈ coreapi.vol_Name <$> coreapi.Volumes pod.

(** The calls one phase may add to the trace in namespace [ns]: for each pod
    a submission, followed by the wait for that pod exactly when the
    submission returned no error. *)
Fixpoint pod_calls (ns : string) (trace : list Call) : bool :=
  match trace with
  | [] => true
  | CreateOrRestartPod ns' pod (Some _) :: rest =>
      bool_decide (ns' = ns) && pod_calls ns rest
  | CreateOrRestartPod ns' pod None :: WaitForPodCompletion ns'' podName _ :: rest =>
      bool_decide (ns' = ns) && bool_decide (ns'' = ns)
      && bool_decide (podName = coreapi.pod_Name pod) && pod_calls ns rest
  | _ => false
  end.

(** The pods a phase runs in a state: those of [generatePods] when it
    returned no error, none otherwise. *)
Definition phasePods (s : multiStageTestStep) (st : State Cluster)
    (steps : list api.LiteralTestStep) : list coreapi.Pod :=
  match generatePods s (releaseInitial st) (releaseLatest st) steps with
  | Some (pods, None) => pods
  | _ => []
  end.

(** The fields of the step that only [Run] itself assigns are the same in
    two states. *)
Record same_settings (st st' : State Cluster) : Prop := mkSameSettings {
  same_dry : dry st' = dry st;
  same_releaseInitial : releaseInitial st' = releaseInitial st;
  same_releaseLatest : releaseLatest st' = releaseLatest st
}.

(** A state only grew: sub-tests, logged objects and calls were appended. *)
Record grew (st st' : State Cluster) : Prop := mkGrew {
  grew_subTests : subTests st `prefix_of` subTests st';
  grew_logged : logged st `prefix_of` logged st';
  grew_calls : calls st `prefix_of` calls st'
}.


(** The calls on the secrets client. *)
Definition secret_call (c : Call) : bool :=
  match c with
  | SecretsGet _ _ _ | SecretsDelete _ _ _ | SecretsCreate _ _ _ => true
  | _ => false
  end.


(** The characters of a string. *)
Fixpoint chars (s : string) : list ascii :=
  match s with
  | String.EmptyString => []
  | String.String c rest => c :: chars rest
  end.

End Shapes.


(** * The configuration resolver ([cmd/ci-operator-configresolver])

    The options check and the HTTP handlers of the command.  The response
    writer, the two agents, the JSON encoder, the logging library and the
    file system are interfaces; the metrics of the package are a value
    threaded through the handlers. *)

Module configresolver.

(** [type options]; a [time.Duration] is its count of nanoseconds. *)
Record options : Type := mkOptions {
  configPath : string;
  registryPath : string;
  logLevel : string;
  address : string;
  gracePeriod : Z;
  cycle : Z;
  validateOnly : bool;
  flatRegistry : bool
}.

(** What [validateOptions] asks of its environment: [log.ParseLevel],
    [os.Stat] (the file information is not used) and [os.IsNotExist]. *)
Class Host : Type := {
  ParseLevel : string -> option error;
  Stat : string -> option error;
  IsNotExist : error -> bool
}.

Definition validateOptions `{Host} (o : options) : option error :=
  match ParseLevel (logLevel o) with
  | Some e => Some (Errorf "invalid --log-level: %v" [err e])
  | None =>
  if decide (cycle o = 0%Z) then
    Some (Errorf "invalid cycle: duration cannot equal 0" [])
  else
  let statFailed (path : string) : option error :=
    match Stat path with
    | Some e => if IsNotExist e then Some e else None
    | None => None
    end in
  match (if decide (configPath o = "") then Some (Errorf "--config is required" [])
         else match statFailed (configPath o) with
              | Some e =>
                  Some (Errorf "--config points to a nonexistent directory: %v" [err e])
              | None => None
              end) with
  | Some e => Some e
  | None =>
  match (if decide (registryPath o = "") then Some (Errorf "--registry is required" [])
         else match statFailed (registryPath o) with
              | Some e =>
                  Some (Errorf "--registry points to a nonexistent directory: %v" [err e])
              | None => None
              end) with
  | Some e => Some e
  | None =>
  if validateOnly o && flatRegistry o then
    Some (New "--validate-only and --flat-registry flags cannot be set simultaneously")
  else None
  end end end.

(** ** Requests, responses and metrics *)

Definition StatusOK : Z := 200.
Definition StatusBadRequest : Z := 400.
Definition StatusNotFound : Z := 404.
Definition StatusInternalServerError : Z := 500.
Definition StatusNotImplemented : Z := 501.

(** [http.StatusText] at the two codes the handlers pass it. *)
Definition StatusText (code : Z) : string :=
  if decide (code = StatusNotFound) then "Not Found"
  else if decide (code = StatusNotImplemented) then "Not Implemented"
  else "".

(** An operand of [fmt.Fprintf]. *)
Inductive argument : Type :=
| arg_string (s : string)
| arg_error (e : error)
| arg_int (n : Z).

(** What is handed to [Write]: bytes, or the bytes [fmt.Fprintf] makes of a
    format and its operands, kept unrendered. *)
Inductive Data : Type :=
| Bytes (s : string)
| Formatted (format : string) (operands : list argument).

(** [http.ResponseWriter]: the two methods the handlers call.  [Write]
    returns the number of bytes written and an error. *)
Class ResponseWriter (W : Type) : Type := {
  WriteHeader : Z -> W -> W;
  Write : Data -> W -> (Z * option error) * W
}.

(** The part of [*http.Request] the handlers read: the method, the parsed
    query of the URL and its escaped path. *)
Record Request : Type := mkRequest {
  Method : string;
  Query : gmap string (list string);
  EscapedPath : string
}.

(** [url.Values.Get]: the first value of the key, or the empty string. *)
Definition Values_Get (v : gmap string (list string)) (key : string) : string :=
  match v !! key with
  | Some (first :: _) => first
  | _ => ""
  end.

(** [configresolverMetrics]: the error counter by label, and the
    observations of the two histograms with their [status] and [path]
    labels.  A duration is observed as its nanoseconds and a size as its
    integer, before the conversions to [float64]. *)
Record Metrics : Type := mkMetrics {
  errorRate : gmap string nat;
  httpRequestDuration : list (string * string * Z);
  httpResponseSize : list (string * string * Z)
}.

Definition recordError (label : string) (m : Metrics) : Metrics :=
  mkMetrics (<[label := S (default 0%nat (errorRate m !! label))]> (errorRate m))
            (httpRequestDuration m) (httpResponseSize m).

(** [http.HandlerFunc], with the metrics it may touch. *)
Definition HandlerFunc (W : Type) : Type := W -> Request -> Metrics -> W * Metrics.

(** [fmt.Fprintf(w, format, operands...)]: one [Write]. *)
Definition Fprintf {W} `{ResponseWriter W} (w : W) (format : string)
    (operands : list argument) : (Z * option error) * W :=
  Write (Formatted format operands) w.

Definition missingQuery {W} `{ResponseWriter W} (w : W) (field : string) (m : Metrics)
  : W * Metrics :=
  let m := recordError ("query missing " +:+ field) m in
  let w := WriteHeader StatusBadRequest w in
  let '(_, w) := Fprintf w "%s query missing or incorrect" [arg_string field] in
  (w, m).

(** ** [traceResponseWriter] *)

(** Go's [int] on the platforms of the command: 64 bits, two's complement. *)
Definition wrap_int (z : Z) : Z := ((z + 2 ^ 63) mod 2 ^ 64 - 2 ^ 63)%Z.

Record traceResponseWriter (W : Type) : Type := mkTrace {
  inner : W;
  statusCode : Z;
  size : Z
}.
Arguments mkTrace {W}.
Arguments inner {W}.
Arguments statusCode {W}.
Arguments size {W}.

Definition trace_WriteHeader {W} `{ResponseWriter W} (code : Z)
    (w : traceResponseWriter W) : traceResponseWriter W :=
  mkTrace (WriteHeader code (inner w)) code (size w).

Definition trace_Write {W} `{ResponseWriter W} (data : Data)
    (w : traceResponseWriter W) : (Z * option error) * traceResponseWriter W :=
  let '((n, e), i) := Write data (inner w) in
  ((n, e), mkTrace i (statusCode w) (wrap_int (size w + n))).

#[export] Instance trace_ResponseWriter {W} `{ResponseWriter W}
  : ResponseWriter (traceResponseWriter W) :=
  {| WriteHeader := trace_WriteHeader; Write := trace_Write |}.

(** [strconv.Itoa]. *)
Definition Itoa (z : Z) : string := DecimalString.NilZero.string_of_int (Z.to_int z).

(** [handleWithMetrics(h)], given what [time.Since(t)] returns after [h]. *)
Definition handleWithMetrics {W} `{ResponseWriter W}
    (h : HandlerFunc (traceResponseWriter W)) (latency : Z) : HandlerFunc W :=
  fun w r m =>
    let trw := mkTrace w StatusOK 0 in
    let '(trw, m) := h trw r m in
    let labels := (Itoa (statusCode trw), EscapedPath r) in
    let m := mkMetrics (errorRate m)
                       (httpRequestDuration m ++ [(labels, latency)])
                       (httpResponseSize m) in
    let m := mkMetrics (errorRate m) (httpRequestDuration m)
                       (httpResponseSize m ++ [(labels, size trw)]) in
    (inner trw, m).

(** ** The handlers *)

Definition genericHandler {W} `{ResponseWriter W} : HandlerFunc W :=
  fun w r m =>
    let w := WriteHeader StatusNotFound w in
    let '(_, w) := Write (Bytes (StatusText StatusNotFound)) w in
    (w, m).

(** [config.Info]. *)
Record Info : Type := mkInfo {
  Org : string;
  Repo : string;
  Branch : string;
  Variant : string
}.

(** [load.ConfigAgent] and [load.RegistryAgent] over a configuration type,
    and [json.MarshalIndent(config, "", "  ")]. *)
Record ConfigAgent (Config : Type) : Type := mkConfigAgent {
  GetConfig : Info -> error + Config;
  config_GetGeneration : Z
}.
Arguments GetConfig {Config}.
Arguments config_GetGeneration {Config}.

Record RegistryAgent (Config : Type) : Type := mkRegistryAgent {
  ResolveConfig : Config -> error + Config;
  registry_GetGeneration : Z
}.
Arguments ResolveConfig {Config}.
Arguments registry_GetGeneration {Config}.

Definition orgQuery : string := "org".
Definition repoQuery : string := "repo".
Definition branchQuery : string := "branch".
Definition variantQuery : string := "variant".

Definition resolveConfig {W Config} `{ResponseWriter W}
    (MarshalIndent : Config -> error + string)
    (configAgent : ConfigAgent Config) (registryAgent : RegistryAgent Config)
  : HandlerFunc W :=
  fun w r m =>
    if decide (Method r ≠ "GET") then
      let w := WriteHeader StatusNotImplemented w in
      let '(_, w) := Write (Bytes (StatusText StatusNotImplemented)) w in
      (w, m)
    else
    let org := Values_Get (Query r) orgQuery in
    if decide (org = "") then missingQuery w orgQuery m else
    let repo := Values_Get (Query r) repoQuery in
    if decide (repo = "") then missingQuery w repoQuery m else
    let branch := Values_Get (Query r) branchQuery in
    if decide (branch = "") then missingQuery w branchQuery m else
    let variant := Values_Get (Query r) variantQuery in
    let info := mkInfo org repo branch variant in
    match GetConfig configAgent info with
    | inl e =>
        let m := recordError "config not found" m in
        let w := WriteHeader StatusBadRequest w in
        let '(_, w) := Fprintf w "failed to get config: %v" [arg_error e] in
        (w, m)
    | inr config =>
        match ResolveConfig registryAgent config with
        | inl e =>
            let m := recordError "failed to resolve config with registry" m in
            let w := WriteHeader StatusInternalServerError w in
            let '(_, w) :=
              Fprintf w "failed to resolve config with registry: %v" [arg_error e] in
            (w, m)
        | inr config =>
            match MarshalIndent config with
            | inl e =>
                let m := recordError "failed to marshal config" m in
                let w := WriteHeader StatusInternalServerError w in
                let '(_, w) :=
                  Fprintf w "failed to marshal config to JSON: %v" [arg_error e] in
                (w, m)
            | inr jsonConfig =>
                let w := WriteHeader StatusOK w in
                let '(_, w) := Write (Bytes jsonConfig) w in
                (w, m)
            end
        end
    end.

Definition getConfigGeneration {W Config} `{ResponseWriter W}
    (agent : ConfigAgent Config) : HandlerFunc W :=
  fun w r m =>
    let w := WriteHeader StatusOK w in
    let '(_, w) := Fprintf w "%d" [arg_int (config_GetGeneration agent)] in
    (w, m).

Definition getRegistryGeneration {W Config} `{ResponseWriter W}
    (agent : RegistryAgent Config) : HandlerFunc W :=
  fun w r m =>
    let w := WriteHeader StatusOK w in
    let '(_, w) := Fprintf w "%d" [arg_int (registry_GetGeneration agent)] in
    (w, m).

(** ** Vocabulary of the properties of the resolver *)

(** A path that [os.Stat] reports as not existing. *)
Definition nonexistent `{Host} (path : string) : bool :=
  match Stat path with
  | Some e => IsNotExist e
  | None => false
  end.

(** A call a handler makes on its response writer. *)
Inductive WriterCall : Type :=
| CallWriteHeader (code : Z)
| CallWrite (data : Data).

(** The writer after a sequence of calls, and the byte counts its [Write]s
    returned. *)
Fixpoint after {W} `{ResponseWriter W} (calls : list WriterCall) (w : W) : W :=
  match calls with
  | [] => w
  | CallWriteHeader code :: rest => after rest (WriteHeader code w)
  | CallWrite data :: rest => after rest (Write data w).2
  end.

Fixpoint written {W} `{ResponseWriter W} (calls : list WriterCall) (w : W) : list Z :=
  match calls with
  | [] => []
  | CallWriteHeader code :: rest => written rest (WriteHeader code w)
  | CallWrite data :: rest => (Write data w).1.1 :: written rest (Write data w).2
  end.

(** The last status passed to [WriteHeader], [dflt] if there was none. *)
Fixpoint lastStatus (dflt : Z) (calls : list WriterCall) : Z :=
  match calls with
  | [] => dflt
  | CallWriteHeader code :: rest => lastStatus code rest
  | CallWrite _ :: rest => lastStatus dflt rest
  end.

(** The response [resolveConfig] decides on: status, body and, for the
    responses counted as errors, the label of the counter. *)
Definition resolved {Config} (MarshalIndent : Config -> error + string)
    (configAgent : ConfigAgent Config) (registryAgent : RegistryAgent Config)
    (r : Request) : Z * Data * option string :=
  let get := Values_Get (Query r) in
  if decide (Method r ≠ "GET") then (501%Z, Bytes "Not Implemented", None)
  else if decide (get "org" = "") then
    (400%Z, Formatted "%s query missing or incorrect" [arg_string "org"],
     Some "query missing org")
  else if decide (get "repo" = "") then
    (400%Z, Formatted "%s query missing or incorrect" [arg_string "repo"],
     Some "query missing repo")
  else if decide (get "branch" = "") then
    (400%Z, Formatted "%s query missing or incorrect" [arg_string "branch"],
     Some "query missing branch")
  else
    match GetConfig configAgent (mkInfo (get "org") (get "repo") (get "branch")
                                        (get "variant")) with
    | inl e => (400%Z, Formatted "failed to get config: %v" [arg_error e],
                Some "config not found")
    | inr config =>
        match ResolveConfig registryAgent config with
        | inl e =>
            (500%Z, Formatted "failed to resolve config with registry: %v" [arg_error e],
             Some "failed to resolve config with registry")
        | inr config =>
            match MarshalIndent config with
            | inl e =>
                (500%Z, Formatted "failed to marshal config to JSON: %v" [arg_error e],
                 Some "failed to marshal config")
            | inr jsonConfig => (200%Z, Bytes jsonConfig, None)
            end
        end
    end.

End configresolver.


(** ** Sample inputs for the further properties *)

Module Samples.

Import Fake.

(** The outcome of the run of [threePhases ""] on [setupFails]. *)
Definition preFailure : option error * State Cluster :=
  default (None, start setupFails) (Run (threePhases "") false (start setupFails)).

(** A test with a cluster profile. *)
Definition withProfile : multiStageTestStep :=
  stepOf "aws" [step "setup" "src"] [] [].

(** A response writer that records the calls made on it and reports the
    length of the bytes, or of the format, as written. *)
Definition Recorder : Type := list configresolver.WriterCall.

#[export] Instance recorder : configresolver.ResponseWriter Recorder :=
  {| configresolver.WriteHeader code w := w ++ [configresolver.CallWriteHeader code];
     configresolver.Write data w :=
       ((match data with
         | configresolver.Bytes s => Z.of_nat (String.length s)
         | configresolver.Formatted format _ => Z.of_nat (String.length format)
         end, None),
        w ++ [configresolver.CallWrite data]) |}.

(** A cluster that holds the profile secret of the test, and the state the
    profile block of [withProfile] leaves on it. *)
Definition profileCluster : Cluster := mkCluster ["e2e-cluster-profile"] [] [] [] false.

Definition profileResolved : State Cluster :=
  (resolveProfile withProfile (start profileCluster)).2.

Definition request : configresolver.Request :=
  configresolver.mkRequest "GET" ∅ "/nowhere".

Definition noMetrics : configresolver.Metrics := configresolver.mkMetrics ∅ [] [].

End Samples.


(** Unfolds the primitive actions of the state monad. *)
Ltac step_actions :=
  unfold bind, ret, gets, modify, AddObject, secrets_Get, secrets_Delete,
    secrets_Create, pods_DeleteCollection, call_createOrRestartPod,
    call_waitForPodCompletion, record, set_cluster, set_subTests, set_dry,
    set_releaseInitial, set_releaseLatest, logging; simpl.

(** ** Pod synthesis *)

Section Synthesis.

Context {Cluster : Type}.
Context `{!SecretsGetter Cluster, !PodClient Cluster, !Package Cluster}.

Implicit Types (s : multiStageTestStep) (pod base : coreapi.Pod)
  (step : api.LiteralTestStep) (c : coreapi.Container).

Lemma update_main_cons f pod c rest :
  coreapi.Containers pod = c :: rest →
  update_main f pod = Some (coreapi.with_Containers (f c :: rest) pod).
Proof. unfold update_main. by intros ->. Qed.

(** The effect of [addSecretWrapper] on a pod that has a first container. *)
Lemma addSecretWrapper_cons pod c rest :
  coreapi.Containers pod = c :: rest →
  ∃ pod' c',
    addSecretWrapper pod = Some pod' ∧
    coreapi.Containers pod' = c' :: rest ∧
    coreapi.Args c' = coreapi.Command c ++ coreapi.Args c ∧
    coreapi.Command c' = [wrapperBin] ∧
    coreapi.VolumeMounts c' = coreapi.VolumeMounts c ++ [wrapperMount] ∧
    coreapi.Image c' = coreapi.Image c ∧
    coreapi.Name c' = coreapi.Name c ∧
    coreapi.InitContainers pod' = coreapi.InitContainers pod ++ [wrapperInitContainer] ∧
    coreapi.Volumes pod' =
      coreapi.Volumes pod ++ [coreapi.mkVolume wrapperVolume coreapi.EmptyDir] ∧
    coreapi.Labels pod' = coreapi.Labels pod ∧
    coreapi.pod_Name pod' = coreapi.pod_Name pod.
Proof.
  intros Hc. unfold addSecretWrapper.
  erewrite update_main_cons by (simpl; exact Hc).
  eexists _, _. split; [reflexivity|]. simpl. by repeat split.
Qed.

Lemma decoratePod_well_formed s ri rl base :
  is_Some (coreapi.Labels base) → coreapi.Containers base ≠ [] →
  ∃ pod, decoratePod s ri rl base = Some pod ∧ decorated base pod.
Proof.
  intros [labels Hl] Hne.
  destruct base as [n l a o v i cs]; simpl in *; subst l.
  destruct cs as [|c rest]; [done|].
  unfold decoratePod, set_label, addSecretWrapper, addProfile, addSecret,
    update_main; simpl.
  destruct (api.Owner (jobSpec s)); destruct (decide (profile s ≠ "")); simpl;
    (eexists; split; [reflexivity|]);
    (split; simpl; [eexists _, _, _; repeat split; simpl; set_solver
                   | done | set_solver | done]).
Qed.

Lemma generatePod_error s ri rl step e :
  basePodOf s step = inl e → generatePod s ri rl step = Some (inl e).
Proof.
  unfold basePodOf, generatePod.
  destruct (resourcesFor _); [by intros [= ->]|].
  by intros ->.
Qed.

Lemma generatePod_base s ri rl step base :
  basePodOf s step = inr base →
  generatePod s ri rl step = inr <$> decoratePod s ri rl base.
Proof.
  unfold basePodOf, generatePod.
  destruct (resourcesFor _); [done|].
  by intros ->.
Qed.

Lemma basePodOf_well_formed s step base :
  base_pods_well_formed → basePodOf s step = inr base →
  is_Some (coreapi.Labels base) ∧ coreapi.Containers base ≠ [].
Proof.
  intros Hwf. unfold basePodOf.
  destruct (resourcesFor _); [done|]. apply Hwf.
Qed.

Lemma basePodOf_image s step base :
  base_pods_use_image → basePodOf s step = inr base →
  ∃ c rest, coreapi.Containers base = c :: rest ∧ coreapi.Image c = imageFor s step.
Proof.
  intros Himg. unfold basePodOf.
  destruct (resourcesFor _); [done|]. apply Himg.
Qed.

(** The loop of [generatePods] visits every step: each one adds its error to
    [errs] or its pod to [ret]. *)
Lemma generatePods_loop_spec s ri rl steps :
  base_pods_well_formed →
  ∀ ret errs, ∃ pods,
    generatePods_loop s ri rl steps ret errs
      = Some (ret ++ pods, errs ++ omap (synthesisError s) steps) ∧
    Forall2 (λ sb pod, basePodOf s sb.1 = inr sb.2 ∧
                       decoratePod s ri rl sb.2 = Some pod ∧ decorated sb.2 pod)
            (synthesized s steps) pods.
Proof.
  intros Hwf. induction steps as [|step steps IH]; intros ret errs.
  - exists []. by rewrite !app_nil_r.
  - simpl. unfold synthesized, synthesisError in *. simpl.
    destruct (basePodOf s step) as [e|base] eqn:Hbase.
    + rewrite (generatePod_error _ _ _ _ _ Hbase).
      destruct (IH ret (errs ++ [e])) as (pods & -> & Hall).
      exists pods. by rewrite <- app_assoc.
    + rewrite (generatePod_base _ _ _ _ _ Hbase).
      destruct (basePodOf_well_formed _ _ _ Hwf Hbase) as [Hl Hc].
      destruct (decoratePod_well_formed s ri rl base Hl Hc) as (pod & Hpod & Hdec).
      rewrite Hpod. simpl.
      destruct (IH (ret ++ [pod]) errs) as (pods & -> & Hall).
      exists (pod :: pods). rewrite <- app_assoc. split; [done|].
      by constructor.
Qed.

Lemma generatePods_spec s ri rl steps :
  base_pods_well_formed →
  ∃ pods,
    generatePods s ri rl steps
      = Some (pods, NewAggregate (omap (synthesisError s) steps)) ∧
    Forall2 (λ sb pod, basePodOf s sb.1 = inr sb.2 ∧
                       decoratePod s ri rl sb.2 = Some pod ∧ decorated sb.2 pod)
            (synthesized s steps) pods.
Proof.
  intros Hwf. unfold generatePods.
  destruct (generatePods_loop_spec s ri rl steps Hwf [] []) as (pods & -> & Hall).
  by exists pods.
Qed.

Lemma synthesized_steps s steps :
  (synthesized s steps).*1 = filter (λ step, synthesisError s step = None) steps.
Proof.
  induction steps as [|step steps IH]; [done|].
  unfold synthesized, synthesisError in *. simpl.
  destruct (basePodOf s step) eqn:Hbase; simpl.
  - rewrite filter_cons_False; [done|]. by rewrite Hbase.
  - rewrite filter_cons_True; [|by rewrite Hbase]. simpl. by f_equal.
Qed.

(** C5: the pods of a phase are, in order, those of the steps without a
    synthesis error, and the first container of each runs
    [PipelineImageStream:From] when [From] is a pipeline image of the
    configuration and [From] itself otherwise. *)
Theorem generatePods_image s ri rl steps :
  base_pods_well_formed → base_pods_use_image →
  ∃ pods e,
    generatePods s ri rl steps = Some (pods, e) ∧
    (synthesized s steps).*1 = filter (λ step, synthesisError s step = None) steps ∧
    Forall2
      (λ sb pod, ∃ c rest,
         coreapi.Containers pod = c :: rest ∧
         coreapi.Image c =
           if api.IsPipelineImage (config s) (api.From sb.1)
           then PipelineImageStream +:+ ":" +:+ api.From sb.1
           else api.From sb.1)
      (synthesized s steps) pods.
Proof.
  intros Hwf Himg.
  destruct (generatePods_spec s ri rl steps Hwf) as (pods & Hgen & Hall).
  exists pods, (NewAggregate (omap (synthesisError s) steps)).
  split; [done|]. split; [apply synthesized_steps|].
  eapply Forall2_impl; [exact Hall|].
  intros [step base] pod (Hb & _ & [(c & c' & rest & Hcb & Hcp & Hi & _) _ _ _]).
  destruct (basePodOf_image _ _ _ Himg Hb) as (c0 & rest0 & Hc0 & Himage).
  simpl in *. rewrite Hcb in Hc0. injection Hc0 as <- <-.
  exists c', rest. split; [done|]. by rewrite Hi, Himage.
Qed.

(** C10: every synthesised pod keeps the command line of its base pod behind
    the wrapper.  The arguments of the first container are the base
    container's command followed by its arguments, its command is the
    wrapper binary alone, the init containers are those of the base pod
    followed by the one that copies the wrapper to that path, and the
    emptyDir volume of the wrapper is mounted in both containers. *)
Theorem generatePods_secret_wrapper s ri rl steps :
  base_pods_well_formed →
  ∃ pods e,
    generatePods s ri rl steps = Some (pods, e) ∧
    Forall2
      (λ sb pod, ∃ c c' rest,
         coreapi.Containers sb.2 = c :: rest ∧
         coreapi.Containers pod = c' :: rest ∧
         coreapi.Args c' = coreapi.Command c ++ coreapi.Args c ∧
         coreapi.Command c' = [wrapperBin] ∧
         coreapi.InitContainers pod
           = coreapi.InitContainers sb.2 ++ [wrapperInitContainer] ∧
         coreapi.Command wrapperInitContainer = ["cp"] ∧
         coreapi.Args wrapperInitContainer = ["/bin/secret-wrapper"; wrapperBin] ∧
         coreapi.VolumeMounts wrapperInitContainer = [wrapperMount] ∧
         wrapperMount ∈ coreapi.VolumeMounts c' ∧
         coreapi.mkVolume (coreapi.mount_Name wrapperMount) coreapi.EmptyDir
           ∈ coreapi.Volumes pod ∧
         wrapperBin = filepath_Join [coreapi.mount_Path wrapperMount; "secret-wrapper"])
      (synthesized s steps) pods.
Proof.
  intros Hwf.
  destruct (generatePods_spec s ri rl steps Hwf) as (pods & Hgen & Hall).
  exists pods, (NewAggregate (omap (synthesisError s) steps)).
  split; [done|].
  eapply Forall2_impl; [exact Hall|].
  intros [step base] pod
    (_ & _ & [(c & c' & rest & Hcb & Hcp & _ & _ & Ha & Hcmd & Hm) Hi Hv _]).
  exists c, c', rest. by repeat split.
Qed.


End Synthesis.

(** ** Dependency links *)

Section Links.

Implicit Types (s : multiStageTestStep) (step : api.LiteralTestStep).

Lemma uses_classify (c : api.ReleaseBuildConfiguration) source step :
  uses c source step =
    match classify c (api.From step), source with
    | PipelineImage, PipelineImage | BuiltImage, BuiltImage
    | ReleaseImage, ReleaseImage => true
    | _, _ => false
    end.
Proof. done. Qed.

Lemma Requires_loop_spec s steps ret needsImages needsRelease :
  Requires_loop s steps ret needsImages needsRelease =
    (ret ++ ((λ step, api.InternalImageLink (api.From step))
               <$> filter (λ step, uses (config s) PipelineImage step) steps),
     needsImages || existsb (uses (config s) BuiltImage) steps,
     needsRelease || existsb (uses (config s) ReleaseImage) steps).
Proof.
  revert ret needsImages needsRelease.
  induction steps as [|step steps IH]; intros ret ni nr;
    cbn [Requires_loop existsb].
  - by rewrite app_nil_r, !orb_false_r.
  - rewrite !IH, filter_cons, !(uses_classify _ _ step). unfold classify.
    destruct (api.IsPipelineImage (config s) (api.From step));
      [|destruct (api.BuildsImage (config s) (api.From step))];
      simpl; by rewrite <- ?app_assoc, ?orb_true_r.
Qed.

(** C7: [Requires] lists, for the steps of the three phases in order, one
    internal-image link per step that uses a pipeline image, then one
    images-ready link if some step uses a built image, then one
    release-images link if some step uses neither, then, when a cluster
    profile is set, the links of the two release-image parameters;
    [Creates] and [Provides] are empty. *)
Theorem Requires_spec s :
  let steps := pre s ++ test s ++ post s in
  Requires s =
    ((λ step, api.InternalImageLink (api.From step))
       <$> filter (λ step, uses (config s) PipelineImage step) steps)
    ++ (if existsb (uses (config s) BuiltImage) steps then [api.ImagesReadyLink] else [])
    ++ (if existsb (uses (config s) ReleaseImage) steps then [api.ReleaseImagesLink] else [])
    ++ (if decide (profile s ≠ "")
        then api.Links (params s) "RELEASE_IMAGE_INITIAL"
             ++ api.Links (params s) "RELEASE_IMAGE_LATEST"
        else [])
  ∧ Creates s = []
  ∧ Provides s = (None, None).
Proof.
  intros steps. split; [|done].
  unfold Requires. rewrite Requires_loop_spec. simpl.
  rewrite <- (app_assoc (pre s)). fold steps.
  destruct (existsb (uses (config s) BuiltImage) steps),
    (existsb (uses (config s) ReleaseImage) steps),
    (decide (profile s ≠ "")); simpl;
    by rewrite ?app_nil_r, <- ?app_assoc.
Qed.

End Links.

(** ** Running pods *)

Section Execution.

Context {Cluster : Type}.
Context `{!SecretsGetter Cluster, !PodClient Cluster, !Package Cluster}.

Implicit Types (s : multiStageTestStep) (pod : coreapi.Pod) (st : State Cluster).

Lemma logging_nil st : logging [] st = st.
Proof. destruct st. unfold logging. simpl. by rewrite app_nil_r. Qed.

Lemma logging_app objects objects' st :
  logging objects' (logging objects st) = logging (objects ++ objects') st.
Proof. unfold logging. simpl. by rewrite app_assoc. Qed.

Lemma runPod_dry s pod notifier st :
  dry st = true → runPod s pod notifier st = (None, logging [PodObject pod] st).
Proof.
  destruct st as [d ri rl sub c lg cl]. simpl. intros ->.
  unfold runPod. by step_actions.
Qed.

(** Outside dry-run mode a pod is submitted exactly once, whatever follows. *)
Lemma runPod_submitted s pod notifier st :
  dry st = false →
  submitted (calls (runPod s pod notifier st).2) = submitted (calls st) ++ [pod] ∧
  dry (runPod s pod notifier st).2 = false.
Proof.
  intros Hdry. unfold runPod. step_actions. rewrite Hdry.
  destruct (createOrRestartPod _ _ _) as [[e|] c]; simpl.
  - unfold submitted. by rewrite omap_app.
  - destruct (waitForPodCompletion _ _ _ _) as [[[e|] n] c']; simpl;
      unfold submitted; by rewrite !omap_app, app_nil_r.
Qed.

(** A failed wait returns before the sub-tests of the notifier are taken. *)
Lemma runPod_failed_wait s pod notifier st e notifier' c c' :
  dry st = false →
  createOrRestartPod (api.Namespace (jobSpec s)) pod (cluster st) = (None, c) →
  waitForPodCompletion (api.Namespace (jobSpec s)) (coreapi.pod_Name pod) notifier c
    = ((Some e, notifier'), c') →
  (runPod s pod notifier st).1
    = Some (Errorf "%q pod %q failed: %v"
                   [str (name s); str (coreapi.pod_Name pod); err e]) ∧
  subTests (runPod s pod notifier st).2 = subTests st.
Proof.
  intros Hdry Hc Hw. unfold runPod. step_actions.
  by rewrite Hdry, Hc; simpl; rewrite Hw.
Qed.

Lemma runPod_prefix s pod notifier st :
  calls st `prefix_of` calls (runPod s pod notifier st).2.
Proof.
  unfold runPod. step_actions.
  destruct (dry st); simpl; [done|].
  destruct (createOrRestartPod _ _ _) as [[e|] c]; simpl;
    [by apply prefix_app_r|].
  destruct (waitForPodCompletion _ _ _ _) as [[[e|] n] c']; simpl;
    by do 2 apply prefix_app_r.
Qed.

Lemma attemptAll_cons s pod pods st :
  attemptAll s (pod :: pods) st =
    let r := runPod s pod (NewTestCaseNotifier (notifierFor s pod)) st in
    let rs := attemptAll s pods r.2 in
    (r.1 :: rs.1, rs.2).
Proof.
  simpl. unfold bind, ret.
  destruct (runPod s pod _ st) as [r st1]. simpl.
  by destruct (attemptAll s pods st1).
Qed.

Lemma runPods_loop_cons s pod pods shortCircuit errs st :
  runPods_loop s (pod :: pods) shortCircuit errs st =
    let r := runPod s pod (NewTestCaseNotifier (notifierFor s pod)) st in
    match r.1 with
    | Some e =>
        if shortCircuit then (errs ++ [e], r.2)
        else runPods_loop s pods shortCircuit (errs ++ [e]) r.2
    | None => runPods_loop s pods shortCircuit errs r.2
    end.
Proof.
  simpl. unfold bind, ret.
  destruct (runPod s pod _ st) as [[e|] st1]; simpl; [|done].
  by destruct shortCircuit.
Qed.

(** Without short-circuit the loop is [attemptAll]. *)
Lemma runPods_loop_all s pods errs st :
  runPods_loop s pods false errs st =
    (errs ++ omap id (attemptAll s pods st).1, (attemptAll s pods st).2).
Proof.
  revert errs st. induction pods as [|pod pods IH]; intros errs st.
  - simpl. unfold ret. simpl. by rewrite app_nil_r.
  - rewrite runPods_loop_cons, attemptAll_cons. simpl.
    destruct (runPod s pod _ st) as [[e|] st1]; simpl; rewrite IH; [|done].
    by rewrite <- app_assoc.
Qed.

Lemma attemptAll_length s pods st :
  length (attemptAll s pods st).1 = length pods.
Proof.
  revert st. induction pods as [|pod pods IH]; intros st; [done|].
  rewrite attemptAll_cons. simpl. by rewrite IH.
Qed.

Lemma attemptAll_submitted s pods st :
  dry st = false →
  submitted (calls (attemptAll s pods st).2) = submitted (calls st) ++ pods ∧
  dry (attemptAll s pods st).2 = false.
Proof.
  revert st. induction pods as [|pod pods IH]; intros st Hdry.
  - simpl. by rewrite app_nil_r.
  - rewrite attemptAll_cons. simpl.
    destruct (runPod_submitted s pod (NewTestCaseNotifier (notifierFor s pod)) st Hdry)
      as [Hsub Hdry1].
    destruct (IH _ Hdry1) as [Hsub' Hdry2].
    by rewrite Hsub', Hsub, <- app_assoc.
Qed.

Lemma attemptAll_cons_succeeded s pod pods st st' :
  attemptAll s (pod :: pods) st = (replicate (length (pod :: pods)) None, st') →
  (runPod s pod (NewTestCaseNotifier (notifierFor s pod)) st).1 = None ∧
  attemptAll s pods (runPod s pod (NewTestCaseNotifier (notifierFor s pod)) st).2
    = (replicate (length pods) None, st').
Proof.
  rewrite attemptAll_cons. simpl. intros [= Hr Hrs Hst]. split; [done|].
  by rewrite <- Hrs, <- Hst; destruct (attemptAll s pods _).
Qed.

(** With short-circuit the loop stops after the first pod that fails. *)
Lemma runPods_loop_first_failure s before pod after errs st st1 e st2 :
  attemptAll s before st = (replicate (length before) None, st1) →
  runPod s pod (NewTestCaseNotifier (notifierFor s pod)) st1 = (Some e, st2) →
  runPods_loop s (before ++ pod :: after) true errs st = (errs ++ [e], st2).
Proof.
  revert errs st. induction before as [|pod0 before IH]; intros errs st Hall Hpod.
  - simpl in Hall. injection Hall as <-.
    simpl app. rewrite runPods_loop_cons. by rewrite Hpod.
  - apply attemptAll_cons_succeeded in Hall as [Hr Hall].
    simpl app. rewrite runPods_loop_cons. simpl. rewrite Hr. by apply IH.
Qed.

Lemma runPods_loop_no_failure s pods shortCircuit errs st st' :
  attemptAll s pods st = (replicate (length pods) None, st') →
  runPods_loop s pods shortCircuit errs st = (errs, st').
Proof.
  revert errs st. induction pods as [|pod0 pods IH]; intros errs st Hall.
  - simpl in *. by injection Hall as <-.
  - apply attemptAll_cons_succeeded in Hall as [Hr Hall].
    rewrite runPods_loop_cons. simpl. rewrite Hr. by apply IH.
Qed.

Lemma runPods_dry s pods shortCircuit st :
  dry st = true →
  runPods s pods shortCircuit st = (None, logging (PodObject <$> pods) st).
Proof.
  intros Hdry. unfold runPods, bind, ret.
  assert (∀ errs st0, dry st0 = true →
            runPods_loop s pods shortCircuit errs st0
              = (errs, logging (PodObject <$> pods) st0)) as Hloop.
  { clear. induction pods as [|pod pods IH]; intros errs st0 Hdry.
    - simpl. by rewrite logging_nil.
    - rewrite runPods_loop_cons, runPod_dry by done. simpl.
      rewrite IH by done. by rewrite logging_app. }
  by rewrite Hloop.
Qed.

(** C2: without short-circuit every pod of the phase is run in turn, the
    combined error holds the failure of every pod that failed, and outside
    dry-run mode every pod is submitted; with short-circuit, the pods before
    the first failing one are run, the error of that pod is the one returned
    and the run ends in the state that pod left, so no later pod is run. *)
Theorem runPods_short_circuit s pods st :
  (runPods s pods false st
     = (NewAggregate (omap id (attemptAll s pods st).1), (attemptAll s pods st).2) ∧
   length (attemptAll s pods st).1 = length pods ∧
   (dry st = false →
    submitted (calls (runPods s pods false st).2) = submitted (calls st) ++ pods)) ∧
  (∀ before pod after st1 e st2,
     pods = before ++ pod :: after →
     attemptAll s before st = (replicate (length before) None, st1) →
     runPod s pod (NewTestCaseNotifier (notifierFor s pod)) st1 = (Some e, st2) →
     runPods s pods true st = (NewAggregate [e], st2)) ∧
  (∀ st', attemptAll s pods st = (replicate (length pods) None, st') →
     runPods s pods true st = (None, st')).
Proof.
  repeat split.
  - unfold runPods, bind, ret. by rewrite runPods_loop_all.
  - apply attemptAll_length.
  - intros Hdry. unfold runPods, bind, ret. rewrite runPods_loop_all. simpl.
    by apply attemptAll_submitted.
  - intros before pod after st1 e st2 -> Hall Hpod.
    unfold runPods, bind, ret.
    by rewrite (runPods_loop_first_failure _ _ _ _ _ _ _ _ _ Hall Hpod).
  - intros st' Hall. unfold runPods, bind, ret.
    by rewrite (runPods_loop_no_failure _ _ _ _ _ _ Hall).
Qed.

End Execution.

(** ** The phases of [Run] *)

Section Orchestration.

Context {Cluster : Type}.
Context `{!SecretsGetter Cluster, !PodClient Cluster, !Package Cluster}.

Implicit Types (s : multiStageTestStep) (pod : coreapi.Pod) (st : State Cluster).

Lemma untouched_refl st : untouched st st.
Proof. by split. Qed.

Lemma untouched_trans st st' st'' :
  untouched st st' → untouched st' st'' → untouched st st''.
Proof. intros [] []. split; congruence. Qed.

Lemma untouched_logging objects st : untouched st (logging objects st).
Proof. by split. Qed.

Lemma runPods_loop_prefix s pods shortCircuit errs st :
  calls st `prefix_of` calls (runPods_loop s pods shortCircuit errs st).2.
Proof.
  revert errs st. induction pods as [|pod pods IH]; intros errs st; [done|].
  rewrite runPods_loop_cons. simpl.
  pose proof (runPod_prefix s pod (NewTestCaseNotifier (notifierFor s pod)) st) as Hp.
  destruct (runPod s pod _ st) as [[e|] st1]; simpl in *.
  - destruct shortCircuit; [done|]. by etrans; [|apply IH].
  - by etrans; [|apply IH].
Qed.

Lemma runPods_prefix s pods shortCircuit st :
  calls st `prefix_of` calls (runPods s pods shortCircuit st).2.
Proof.
  unfold runPods, bind, ret.
  pose proof (runPods_loop_prefix s pods shortCircuit [] st).
  by destruct (runPods_loop s pods shortCircuit [] st).
Qed.

(** A phase returns when the base pods are well formed, and only adds to
    the trace. *)
Lemma runSteps_total s steps shortCircuit st :
  base_pods_well_formed →
  ∃ r st', runSteps s steps shortCircuit st = Some (r, st') ∧
           calls st `prefix_of` calls st'.
Proof.
  intros Hwf. unfold runSteps.
  destruct (generatePods_spec s (releaseInitial st) (releaseLatest st) steps Hwf)
    as (pods & -> & _).
  destruct (NewAggregate _) as [e|].
  - by exists (Some e), st.
  - pose proof (runPods_prefix s pods shortCircuit st).
    destruct (runPods s pods shortCircuit st) as [r st']. by exists r, st'.
Qed.

(** C6: every step of a phase that fails synthesis contributes its error,
    whatever the steps before it did, and a phase with such an error returns
    the aggregate of all of them and leaves the state as it was: no pod of
    the phase is submitted. *)
Theorem synthesis_errors_abort_phase s steps shortCircuit st :
  base_pods_well_formed →
  let errs := omap (synthesisError s) steps in
  (∃ pods, generatePods s (releaseInitial st) (releaseLatest st) steps
             = Some (pods, NewAggregate errs)) ∧
  (∀ step e, step ∈ steps → synthesisError s step = Some e → e ∈ errs) ∧
  (errs ≠ [] → runSteps s steps shortCircuit st = Some (Some (aggregate errs), st)).
Proof.
  intros Hwf errs.
  destruct (generatePods_spec s (releaseInitial st) (releaseLatest st) steps Hwf)
    as (pods & Hgen & _).
  split; [by exists pods|]. split.
  - intros step e Hin He. apply list_elem_of_omap. by exists step.
  - intros Hne. unfold runSteps. rewrite Hgen. fold errs.
    by destruct errs.
Qed.

(** *** The three ways out of [Run] *)

Lemma Run_unresolved s d st e st1 :
  resolveProfile s (set_dry d st) = (Some e, st1) →
  Run s d st = Some (Some e, st1).
Proof. intros Hp. unfold Run, bindM, lift, retM, modify. by rewrite Hp. Qed.

Lemma Run_secret_failed s d st st1 e st2 :
  resolveProfile s (set_dry d st) = (None, st1) →
  createSecret s st1 = (Some e, st2) →
  Run s d st = Some (Some (Errorf "failed to create secret: %v" [err e]), st2).
Proof.
  intros Hp Hc. unfold Run, bindM, lift, retM, modify. by rewrite Hp, Hc.
Qed.

Lemma Run_phases s d st st1 st2 preFailed st3 testFailed st4 postFailed st5 :
  resolveProfile s (set_dry d st) = (None, st1) →
  createSecret s st1 = (None, st2) →
  runSteps s (pre s) true st2 = Some (preFailed, st3) →
  match preFailed with
  | None => runSteps s (test s) true st3 = Some (testFailed, st4)
  | Some _ => testFailed = None ∧ st4 = st3
  end →
  runSteps s (post s) false st4 = Some (postFailed, st5) →
  Run s d st = Some (NewAggregate (phaseErrors s preFailed testFailed postFailed), st5).
Proof.
  intros Hp Hc Hpre Htest Hpost.
  unfold Run, bindM, lift, retM, modify. rewrite Hp, Hc, Hpre.
  unfold phaseErrors. destruct preFailed as [e|].
  - destruct Htest as [-> ->]. rewrite Hpost. by destruct postFailed.
  - rewrite Htest. destruct testFailed; rewrite Hpost; by destruct postFailed.
Qed.

(** After the results secret is in place [Run] returns, and the trace it
    leaves extends the trace at that point. *)
Lemma Run_phase_order_aux s d st st1 st2 :
  base_pods_well_formed →
  resolveProfile s (set_dry d st) = (None, st1) →
  createSecret s st1 = (None, st2) →
  ∃ r st', Run s d st = Some (r, st') ∧ calls st2 `prefix_of` calls st'.
Proof.
  intros Hwf Hp Hc.
  destruct (runSteps_total s (pre s) true st2 Hwf) as (preFailed & st3 & Hpre & H23).
  assert (∃ testFailed st4,
            match preFailed with
            | None => runSteps s (test s) true st3 = Some (testFailed, st4)
            | Some _ => testFailed = None ∧ st4 = st3
            end ∧ calls st3 `prefix_of` calls st4) as (testFailed & st4 & Htest & H34).
  { destruct preFailed as [e|]; [by exists None, st3|].
    destruct (runSteps_total s (test s) true st3 Hwf) as (r & st4 & Htest & H34).
    by exists r, st4. }
  destruct (runSteps_total s (post s) false st4 Hwf) as (postFailed & st5 & Hpost & H45).
  eexists _, st5. split; [by eapply Run_phases|].
  by etrans; [|etrans].
Qed.

(** C1, as the code has it: once the cluster-profile block and
    [createSecret] have returned no error,
    [Run] runs the pre steps with short-circuit; it runs the test steps,
    with short-circuit, exactly when the pre phase returned no error, and
    otherwise goes from the state the pre phase left straight to the post
    steps; it runs the post steps without short-circuit in either case; and
    it returns the aggregate of the errors of the phases, which is [nil]
    exactly when no phase returned an error. *)
Theorem Run_phase_order s d st st1 st2 :
  base_pods_well_formed →
  resolveProfile s (set_dry d st) = (None, st1) →
  createSecret s st1 = (None, st2) →
  ∃ preFailed st3 testFailed st4 postFailed st5,
    runSteps s (pre s) true st2 = Some (preFailed, st3) ∧
    match preFailed with
    | None => runSteps s (test s) true st3 = Some (testFailed, st4)
    | Some _ => testFailed = None ∧ st4 = st3
    end ∧
    runSteps s (post s) false st4 = Some (postFailed, st5) ∧
    Run s d st = Some (NewAggregate (phaseErrors s preFailed testFailed postFailed), st5) ∧
    (NewAggregate (phaseErrors s preFailed testFailed postFailed) = None
       ↔ preFailed = None ∧ testFailed = None ∧ postFailed = None).
Proof.
  intros Hwf Hp Hc.
  destruct (runSteps_total s (pre s) true st2 Hwf) as (preFailed & st3 & Hpre & _).
  assert (∃ testFailed st4,
            match preFailed with
            | None => runSteps s (test s) true st3 = Some (testFailed, st4)
            | Some _ => testFailed = None ∧ st4 = st3
            end) as (testFailed & st4 & Htest).
  { destruct preFailed as [e|]; [by exists None, st3|].
    destruct (runSteps_total s (test s) true st3 Hwf) as (r & st4 & Htest & _).
    by exists r, st4. }
  destruct (runSteps_total s (post s) false st4 Hwf) as (postFailed & st5 & Hpost & _).
  exists preFailed, st3, testFailed, st4, postFailed, st5.
  split; [done|]. split; [done|]. split; [done|].
  split; [by eapply Run_phases|].
  unfold phaseErrors.
  clear. destruct preFailed, testFailed, postFailed; simpl; intuition congruence.
Qed.

(** [Run] returns when the base pods are well formed. *)
Lemma Run_total s d st :
  base_pods_well_formed → ∃ r st', Run s d st = Some (r, st').
Proof.
  intros Hwf.
  destruct (resolveProfile s (set_dry d st)) as [[e|] st1] eqn:Hp.
  { eexists _, _. by eapply Run_unresolved. }
  destruct (createSecret s st1) as [[e|] st2] eqn:Hc.
  { eexists _, _. by eapply Run_secret_failed. }
  destruct (Run_phase_order_aux s d st st1 st2 Hwf Hp Hc) as (r & st' & H & _).
  by exists r, st'.
Qed.


(** *** Dry-run mode *)

Lemma createSecret_dry s st :
  dry st = true →
  createSecret s st = (None, logging [SecretObject (coreapi.mkSecret (name s))] st).
Proof.
  destruct st as [d ri rl sub c lg cl]. simpl. intros ->.
  unfold createSecret. by step_actions.
Qed.

Lemma cleanup_dry s st : dry st = true → cleanup s st = (tt, st).
Proof.
  destruct st as [d ri rl sub c lg cl]. simpl. intros ->.
  unfold cleanup. by step_actions.
Qed.

Lemma resolveProfile_untouched s st : untouched st (resolveProfile s st).2.
Proof.
  unfold resolveProfile. destruct (decide (profile s ≠ "")); [|done].
  step_actions.
  destruct (Secrets_Get _ _ _) as [e|]; simpl.
  - split; simpl; [done| |done|done]. by rewrite filter_app, app_nil_r.
  - destruct (api.Get (params s) "RELEASE_IMAGE_INITIAL") as [initial [e|]]; simpl.
    + split; simpl; [done| |done|done]. by rewrite filter_app, app_nil_r.
    + destruct (api.Get (params s) "RELEASE_IMAGE_LATEST") as [latest e]; simpl.
      split; simpl; [done| |done|done]. by rewrite filter_app, app_nil_r.
Qed.

Lemma runSteps_dry s steps shortCircuit st r st' :
  dry st = true → runSteps s steps shortCircuit st = Some (r, st') →
  untouched st st'.
Proof.
  intros Hdry. unfold runSteps.
  destruct (generatePods _ _ _ _) as [[pods [e|]]|]; [| |done].
  - intros [= <- <-]. apply untouched_refl.
  - rewrite runPods_dry by done. intros [= <- <-]. apply untouched_logging.
Qed.

Lemma Run_dry_untouched s st r st' :
  Run s true st = Some (r, st') →
  cluster st' = cluster st ∧
  filter mutating (calls st') = filter mutating (calls st) ∧
  subTests st' = subTests st.
Proof.
  unfold Run, bindM, lift, retM, modify.
  pose proof (resolveProfile_untouched s (set_dry true st)) as Hp.
  destruct (resolveProfile s (set_dry true st)) as [[e|] st1]; simpl in Hp.
  { intros [= <- <-]. by destruct Hp. }
  assert (dry st1 = true) as Hdry1 by (by destruct Hp).
  rewrite createSecret_dry by done.
  destruct (runSteps s (pre s) true _) as [[rpre st2]|] eqn:Hpre; [|done].
  apply runSteps_dry in Hpre as H2; [|done].
  assert (untouched st1 st2) as H12
    by (eapply untouched_trans; [apply untouched_logging|exact H2]).
  assert (∀ errs st3 r0 st4,
            untouched st1 st3 →
            match runSteps s (post s) false st3 with
            | Some (postFailed, st5) =>
                Some (NewAggregate match postFailed with
                                   | Some e => errs ++ [Errorf "%q post steps failed: %v"
                                                               [str (name s); err e]]
                                   | None => errs
                                   end, st5)
            | None => None
            end = Some (r0, st4) →
            untouched st1 st4) as Hpost.
  { intros errs st3 r0 st4 H13.
    destruct (runSteps s (post s) false st3) as [[rpost st5]|] eqn:Hpost; [|done].
    intros [= <- <-]. eapply untouched_trans; [exact H13|].
    eapply runSteps_dry; [|exact Hpost]. destruct H13. congruence. }
  intros Hrun.
  assert (untouched st1 st') as H1.
  { destruct rpre as [e|].
    - by eapply Hpost.
    - assert (dry st2 = true) as Hdry2 by (destruct H12; congruence).
      destruct (runSteps s (test s) true st2) as [[rtest st3]|] eqn:Htest; [|done].
      apply runSteps_dry in Htest; [|done].
      destruct rtest; (eapply Hpost; [|exact Hrun]);
        by eapply untouched_trans. }
  destruct Hp, H1. simpl in *. repeat split; congruence.
Qed.

(** *** The results secret and the cluster profile *)

Lemma createSecret_live s st :
  dry st = false →
  let ns := api.Namespace (jobSpec s) in
  let secret := coreapi.mkSecret (name s) in
  let deleted := Secrets_Delete ns (name s) (cluster st) in
  let st1 := record (SecretsDelete ns (name s) deleted.1) (set_cluster deleted.2 st) in
  let created := Secrets_Create ns secret deleted.2 in
  let st2 := record (SecretsCreate ns secret created.1) (set_cluster created.2 st1) in
  createSecret s st =
    match deleted.1 with
    | Some e =>
        if IsNotFound e then (created.1, st2)
        else (Some (Errorf "cannot delete secret %q: %v" [str (name s); err e]), st1)
    | None => (created.1, st2)
    end.
Proof.
  destruct st as [d ri rl sub c lg cl]. simpl. intros ->.
  unfold createSecret. step_actions.
  destruct (Secrets_Delete _ _ _) as [[e|] c1]; simpl.
  - destruct (IsNotFound e); simpl; [|done].
    by destruct (Secrets_Create _ _ _).
  - by destruct (Secrets_Create _ _ _).
Qed.

(** C3, as the code has it: a run that is not dry and has passed the
    cluster-profile block deletes the secret named after the test as its
    next call; unless that delete failed with an error other than not-found,
    it then creates the secret.  A not-found error of the delete is passed
    over; any other delete error, and any create error, is returned by [Run]
    wrapped in "failed to create secret", with nothing else called. *)
Theorem results_secret_recreated s st st1 :
  base_pods_well_formed →
  resolveProfile s (set_dry false st) = (None, st1) →
  let ns := api.Namespace (jobSpec s) in
  let secret := coreapi.mkSecret (name s) in
  let deleted := Secrets_Delete ns (name s) (cluster st1) in
  let st2 := record (SecretsDelete ns (name s) deleted.1) (set_cluster deleted.2 st1) in
  let created := Secrets_Create ns secret deleted.2 in
  let st3 := record (SecretsCreate ns secret created.1) (set_cluster created.2 st2) in
  let afterCreate : Prop :=
    match created.1 with
    | Some e =>
        Run s false st = Some (Some (Errorf "failed to create secret: %v" [err e]), st3)
    | None =>
        ∃ r st', Run s false st = Some (r, st') ∧ calls st3 `prefix_of` calls st'
    end in
  calls st3 = calls st1 ++ [SecretsDelete ns (name s) deleted.1;
                            SecretsCreate ns secret created.1] ∧
  match deleted.1 with
  | Some e =>
      if IsNotFound e then afterCreate
      else Run s false st
             = Some (Some (Errorf "failed to create secret: %v"
                             [err (Errorf "cannot delete secret %q: %v"
                                          [str (name s); err e])]), st2)
  | None => afterCreate
  end.
Proof.
  intros Hwf Hp ns secret deleted st2 created st3 afterCreate.
  split; [unfold st3, st2; simpl; by rewrite <- app_assoc|].
  assert (dry st1 = false) as Hdry.
  { pose proof (resolveProfile_untouched s (set_dry false st)) as Hu.
    rewrite Hp in Hu. by destruct Hu. }
  assert (createSecret s st1 = (created.1, st3) → afterCreate) as Hcreate.
  { unfold afterCreate. destruct (created.1) as [e|]; intros Hc.
    - by eapply Run_secret_failed.
    - by eapply Run_phase_order_aux. }
  pose proof (createSecret_live s st1 Hdry) as Hc.
  change (createSecret s st1 =
            match deleted.1 with
            | Some e =>
                if IsNotFound e then (created.1, st3)
                else (Some (Errorf "cannot delete secret %q: %v" [str (name s); err e]),
                      st2)
            | None => (created.1, st3)
            end) in Hc.
  revert Hc. destruct (deleted.1) as [e|]; [destruct (IsNotFound e)|]; intros Hc.
  - by apply Hcreate.
  - by eapply Run_secret_failed.
  - by apply Hcreate.
Qed.

(** C4: with a cluster profile set, [Run] reads the secret
    [<name>-cluster-profile] first; if it cannot be read, [Run] returns an
    error carrying that secret's name, and if either release-image parameter
    is unresolved [Run] returns the parameter source's error.  In all three
    cases the read of the secret is the only call: nothing is logged, the
    cluster is as before and no pod is submitted. *)
Theorem missing_profile_fails_fast s d st :
  profile s ≠ "" →
  let ns := api.Namespace (jobSpec s) in
  let secret := name s +:+ "-cluster-profile" in
  let found := Secrets_Get ns secret (cluster st) in
  let st1 := record (SecretsGet ns secret found) (set_dry d st) in
  let initial := api.Get (params s) "RELEASE_IMAGE_INITIAL" in
  let latest := api.Get (params s) "RELEASE_IMAGE_LATEST" in
  (∀ e, found = Some e →
     Run s d st
       = Some (Some (Errorf "could not find secret %q: %v" [str secret; err e]), st1)) ∧
  (∀ e, found = None → initial.2 = Some e →
     Run s d st = Some (Some e, set_releaseInitial initial.1 st1)) ∧
  (∀ e, found = None → initial.2 = None → latest.2 = Some e →
     Run s d st
       = Some (Some e, set_releaseLatest latest.1 (set_releaseInitial initial.1 st1))) ∧
  (∀ st', st' ∈ [st1; set_releaseInitial initial.1 st1;
                 set_releaseLatest latest.1 (set_releaseInitial initial.1 st1)] →
     calls st' = calls st ++ [SecretsGet ns secret found] ∧
     submitted (calls st') = submitted (calls st) ∧
     cluster st' = cluster st ∧
     logged st' = logged st).
Proof.
  intros Hprofile. simpl.
  assert (∀ r st', resolveProfile s (set_dry d st) = (Some r, st') →
                   Run s d st = Some (Some r, st')) as Hrun
    by (intros; by apply Run_unresolved).
  unfold resolveProfile, profileSecretName in Hrun.
  destruct (decide (profile s ≠ "")); [|done].
  revert Hrun. step_actions. intros Hrun.
  split; [|split; [|split]].
  - intros e He. apply Hrun. by rewrite He.
  - intros e He Hi. apply Hrun. rewrite He.
    destruct (api.Get (params s) "RELEASE_IMAGE_INITIAL") as [v r]; simpl in *.
    by subst r.
  - intros e He Hi Hl. apply Hrun. rewrite He.
    destruct (api.Get (params s) "RELEASE_IMAGE_INITIAL") as [v r]; simpl in *.
    subst r.
    destruct (api.Get (params s) "RELEASE_IMAGE_LATEST") as [v' r']; simpl in *.
    by subst r'.
  - intros st' Hin. unfold submitted. set_unfold in Hin.
    destruct Hin as [->|[->|[->|[]]]]; simpl; by rewrite omap_app, app_nil_r.
Qed.


(** C9: in dry-run mode [createSecret] hands the secret to the dry logger
    and [runPods] hands it every pod, both return no error and leave the
    cluster and the trace of calls as they were; the clean-up that follows a
    cancellation does nothing; and a dry [Run] as a whole leaves the cluster
    and the sub-tests unchanged and issues no call other than reads of
    secrets. *)
Theorem dry_run_leaves_cluster s st :
  dry st = true →
  createSecret s st = (None, logging [SecretObject (coreapi.mkSecret (name s))] st) ∧
  (∀ pods shortCircuit,
     runPods s pods shortCircuit st = (None, logging (PodObject <$> pods) st)) ∧
  (∀ objects,
     cluster (logging objects st) = cluster st ∧
     calls (logging objects st) = calls st ∧
     logged (logging objects st) = logged st ++ objects) ∧
  cleanup s st = (tt, st) ∧
  (∀ st0,
     (base_pods_well_formed → ∃ r st', Run s true st0 = Some (r, st')) ∧
     (∀ r st', Run s true st0 = Some (r, st') →
        cluster st' = cluster st0 ∧
        filter mutating (calls st') = filter mutating (calls st0) ∧
        subTests st' = subTests st0)).
Proof.
  intros Hdry. split; [by apply createSecret_dry|].
  split; [intros; by apply runPods_dry|].
  split; [done|]. split; [by apply cleanup_dry|].
  intros st0. split; [intros Hwf; by apply Run_total|].
  intros r st'. apply Run_dry_untouched.
Qed.

End Orchestration.

(** ** The step on the small cluster *)

Section Examples.

Import Fake.

Lemma basePod_well_formed : base_pods_well_formed (Cluster := Fake.Cluster).
Proof.
  intros js podName containerName command image res artifactDir pod.
  simpl. unfold basePod. case_bool_decide; [done|].
  intros [= <-]. simpl. split; [by eexists|done].
Qed.

Lemma basePod_uses_image : base_pods_use_image (Cluster := Fake.Cluster).
Proof.
  intros js podName containerName command image res artifactDir pod.
  simpl. unfold basePod. case_bool_decide; [done|].
  intros [= <-]. simpl. by eexists _, _.
Qed.

(** The pre pod fails: the test phase is skipped, the post phase runs, and
    the error of [Run] is that of the pre phase. *)
Example Run_pre_failure :
  ∃ e st',
    Run (threePhases "") false (start setupFails) = Some (Some (aggregate [e]), st') ∧
    e = Errorf "%q pre steps failed: %v"
          [str "e2e";
           err (aggregate [Errorf "%q pod %q failed: %v"
                             [str "e2e"; str "e2e-setup"; err (New "the pod failed")]])] ∧
    coreapi.pod_Name <$> submitted (calls st') = ["e2e-setup"; "e2e-gather"].
Proof. eexists _, _. vm_compute. done. Qed.

Lemma Run_phase_order_witness :
  base_pods_well_formed (Cluster := Fake.Cluster) ∧
  resolveProfile (threePhases "") (set_dry false (start setupFails))
    = (None, start setupFails) ∧
  createSecret (threePhases "") (start setupFails) = (None, secretInPlace) ∧
  ∃ preFailed st3 testFailed st4 postFailed st5,
    runSteps (threePhases "") (pre (threePhases "")) true secretInPlace
      = Some (preFailed, st3) ∧
    match preFailed with
    | None => runSteps (threePhases "") (test (threePhases "")) true st3
                = Some (testFailed, st4)
    | Some _ => testFailed = None ∧ st4 = st3
    end ∧
    runSteps (threePhases "") (post (threePhases "")) false st4 = Some (postFailed, st5) ∧
    Run (threePhases "") false (start setupFails)
      = Some (NewAggregate (phaseErrors (threePhases "") preFailed testFailed postFailed),
              st5) ∧
    (NewAggregate (phaseErrors (threePhases "") preFailed testFailed postFailed) = None
       ↔ preFailed = None ∧ testFailed = None ∧ postFailed = None).
Proof.
  split; [exact basePod_well_formed|].
  split; [vm_compute; reflexivity|].
  split; [vm_compute; reflexivity|].
  apply (Run_phase_order (threePhases "") false (start setupFails)
           (start setupFails) secretInPlace basePod_well_formed);
    vm_compute; reflexivity.
Defined.

Lemma runPods_short_circuit_witness :
  attemptAll (stepOf "" [] [] []) (take 1 threePods) (start secondFails)
    = (replicate (length (take 1 threePods)) None,
       (attemptAll (stepOf "" [] [] []) (take 1 threePods) (start secondFails)).2) ∧
  runPods (stepOf "" [] [] []) threePods true (start secondFails)
    = (NewAggregate [Errorf "%q pod %q failed: %v"
                       [str "e2e"; str "e2e-b"; err (New "the pod failed")]],
       (attemptAll (stepOf "" [] [] []) (take 2 threePods) (start secondFails)).2) ∧
  coreapi.pod_Name <$>
    submitted (calls (runPods (stepOf "" [] [] []) threePods false (start secondFails)).2)
    = ["e2e-a"; "e2e-b"; "e2e-c"].
Proof.
  pose proof (runPods_short_circuit (stepOf "" [] [] []) threePods (start secondFails))
    as [[_ [_ Hall]] [Hfirst _]].
  split; [vm_compute; reflexivity|]. split.
  - apply (Hfirst (take 1 threePods) secondPod (drop 2 threePods)
             (attemptAll (stepOf "" [] [] []) (take 1 threePods) (start secondFails)).2);
      vm_compute; reflexivity.
  - rewrite (Hall eq_refl). vm_compute. reflexivity.
Defined.

Lemma results_secret_recreated_witness :
  base_pods_well_formed (Cluster := Fake.Cluster) ∧
  resolveProfile (threePhases "") (set_dry false (start setupFails))
    = (None, start setupFails) ∧
  calls secretInPlace
    = [SecretsDelete "ci-op-1" "e2e" (Some (notFound "secrets" "e2e"));
       SecretsCreate "ci-op-1" (coreapi.mkSecret "e2e") None] ∧
  ∃ r st', Run (threePhases "") false (start setupFails) = Some (r, st') ∧
           calls secretInPlace `prefix_of` calls st'.
Proof.
  split; [exact basePod_well_formed|].
  split; [vm_compute; reflexivity|].
  exact (results_secret_recreated (threePhases "") (start setupFails) (start setupFails)
           basePod_well_formed eq_refl).
Defined.

Lemma missing_profile_fails_fast_witness :
  profile (threePhases "aws") ≠ "" ∧
  Run (threePhases "aws") false (start emptyCluster)
    = Some (Some (Errorf "could not find secret %q: %v"
                    [str "e2e-cluster-profile";
                     err (notFound "secrets" "e2e-cluster-profile")]),
            record (SecretsGet "ci-op-1" "e2e-cluster-profile"
                      (Some (notFound "secrets" "e2e-cluster-profile")))
                   (start emptyCluster)).
Proof.
  assert (profile (threePhases "aws") ≠ "") as Hprofile by (vm_compute; discriminate).
  split; [exact Hprofile|].
  exact (proj1 (missing_profile_fails_fast (threePhases "aws") false (start emptyCluster)
                  Hprofile) _ eq_refl).
Defined.

Lemma generatePods_image_witness :
  base_pods_well_formed (Cluster := Fake.Cluster) ∧
  base_pods_use_image (Cluster := Fake.Cluster) ∧
  ∃ pods e,
    generatePods (stepOf "" [] [] []) "" "" oneBadStep = Some (pods, e) ∧
    (synthesized (stepOf "" [] [] []) oneBadStep).*1
      = filter (λ step, synthesisError (stepOf "" [] [] []) step = None) oneBadStep ∧
    Forall2
      (λ sb pod, ∃ c rest,
         coreapi.Containers pod = c :: rest ∧
         coreapi.Image c =
           if api.IsPipelineImage buildConfig (api.From sb.1)
           then "pipeline" +:+ ":" +:+ api.From sb.1
           else api.From sb.1)
      (synthesized (stepOf "" [] [] []) oneBadStep) pods.
Proof.
  split; [exact basePod_well_formed|]. split; [exact basePod_uses_image|].
  exact (generatePods_image (stepOf "" [] [] []) "" "" oneBadStep
           basePod_well_formed basePod_uses_image).
Defined.

Lemma synthesis_errors_abort_phase_witness :
  base_pods_well_formed (Cluster := Fake.Cluster) ∧
  runSteps (stepOf "" [] [] []) oneBadStep false (start emptyCluster)
    = Some (Some (aggregate [New "quantities must match the regular expression"]),
            start emptyCluster).
Proof.
  split; [exact basePod_well_formed|].
  apply (synthesis_errors_abort_phase (stepOf "" [] [] []) oneBadStep false
           (start emptyCluster) basePod_well_formed).
  vm_compute. discriminate.
Defined.

Lemma generatePods_secret_wrapper_witness :
  base_pods_well_formed (Cluster := Fake.Cluster) ∧
  ∃ pods e,
    generatePods (stepOf "" [] [] []) "" "" oneBadStep = Some (pods, e) ∧
    Forall2
      (λ sb pod, ∃ c c' rest,
         coreapi.Containers sb.2 = c :: rest ∧
         coreapi.Containers pod = c' :: rest ∧
         coreapi.Args c' = coreapi.Command c ++ coreapi.Args c ∧
         coreapi.Command c' = [wrapperBin] ∧
         coreapi.InitContainers pod
           = coreapi.InitContainers sb.2 ++ [wrapperInitContainer] ∧
         coreapi.Command wrapperInitContainer = ["cp"] ∧
         coreapi.Args wrapperInitContainer = ["/bin/secret-wrapper"; wrapperBin] ∧
         coreapi.VolumeMounts wrapperInitContainer = [wrapperMount] ∧
         wrapperMount ∈ coreapi.VolumeMounts c' ∧
         coreapi.mkVolume (coreapi.mount_Name wrapperMount) coreapi.EmptyDir
           ∈ coreapi.Volumes pod ∧
         wrapperBin = filepath_Join [coreapi.mount_Path wrapperMount; "secret-wrapper"])
      (synthesized (stepOf "" [] [] []) oneBadStep) pods.
Proof.
  split; [exact basePod_well_formed|].
  exact (generatePods_secret_wrapper (stepOf "" [] [] []) "" "" oneBadStep
           basePod_well_formed).
Defined.

Lemma dry_run_leaves_cluster_witness :
  dry dryStart = true ∧
  createSecret (threePhases "") dryStart
    = (None, logging [SecretObject (coreapi.mkSecret "e2e")] dryStart) ∧
  runPods (threePhases "") threePods true dryStart
    = (None, logging (PodObject <$> threePods) dryStart) ∧
  cleanup (threePhases "") dryStart = (tt, dryStart).
Proof.
  pose proof (dry_run_leaves_cluster (threePhases "") dryStart eq_refl)
    as (Hsecret & Hpods & _ & Hcleanup & _).
  split; [reflexivity|]. split; [exact Hsecret|].
  split; [exact (Hpods threePods true)|exact Hcleanup].
Defined.

(** C1 as the specification words it fails when the results secret cannot
    be put in place: [Run] returns the error of [createSecret], which is not
    an aggregate of phase errors, and no step of any phase is run, the post
    steps included. *)
Lemma failed_secret_skips_phases :
  ∃ st',
    Run (threePhases "") false (start readOnlyCluster)
      = Some (Some (Errorf "failed to create secret: %v"
                      [err (Errorf "cannot delete secret %q: %v"
                              [str "e2e";
                               err (StatusError StatusReasonForbidden
                                      "secrets are read-only")])]),
              st') ∧
    post (threePhases "") = [step "gather" "cli"] ∧
    submitted (calls st') = [] ∧
    calls st' = [SecretsDelete "ci-op-1" "e2e"
                   (Some (StatusError StatusReasonForbidden "secrets are read-only"))].
Proof. eexists. split; [vm_compute; reflexivity|]. by repeat split. Qed.

(** C3 as the specification words it fails when a cluster profile is set
    and its secret is missing: the run is not dry, and it returns after the
    read of the profile secret, without a delete or a create of the results
    secret. *)
Lemma missing_profile_secret_skips_results_secret :
  ∃ e st',
    Run (threePhases "aws") false (start emptyCluster) = Some (Some e, st') ∧
    calls st' = [SecretsGet "ci-op-1" "e2e-cluster-profile"
                   (Some (notFound "secrets" "e2e-cluster-profile"))] ∧
    (∀ r, SecretsDelete "ci-op-1" "e2e" r ∉ calls st') ∧
    (∀ r, SecretsCreate "ci-op-1" (coreapi.mkSecret "e2e") r ∉ calls st').
Proof.
  eexists _, _. split; [vm_compute; reflexivity|].
  split; [reflexivity|].
  split; intros r Hin; apply list_elem_of_singleton in Hin; discriminate.
Qed.

(** C8 at a pod that fails: the container of the pre step starts and
    terminates, and the notifier holds a test case for it, but [runPod]
    returns on the error of the wait before it takes the notifier's test
    cases, so the sub-tests of the step hold only the container of the post
    step, whose pod succeeded. *)
Example failed_pod_leaves_no_subtest :
  (∃ notifier c,
     wait "ci-op-1" "e2e-setup" (mkNotifier NopNotifier None) setupSubmitted
       = ((Some (New "the pod failed"), notifier), c) ∧
     lastPod notifier = Some [("setup", 1%Z)] ∧
     subTestsOf notifier "Run multi-stage test e2e - e2e-setup "
       = [junit.mkTestCase "Run multi-stage test e2e - e2e-setup container setup"
            (Some "container failed")]) ∧
  (∃ e st',
     Run (threePhases "") false (start setupFails) = Some (Some e, st') ∧
     WaitForPodCompletion "ci-op-1" "e2e-setup" (Some (New "the pod failed")) ∈ calls st' ∧
     subTests st'
       = [junit.mkTestCase "Run multi-stage test e2e - e2e-gather container gather" None]).
Proof.
  split.
  - eexists _, _. split; [vm_compute; reflexivity|]. by split.
  - eexists _, _. split; [vm_compute; reflexivity|].
    split; [|reflexivity]. apply list_elem_of_lookup. by exists 3%nat.
Qed.

End Examples.

(** ** Further properties of pod synthesis *)

Section SynthesisShape.

Context {Cluster : Type}.
Context `{!SecretsGetter Cluster, !PodClient Cluster, !Package Cluster}.

Implicit Types (s : multiStageTestStep) (pod base : coreapi.Pod)
  (step : api.LiteralTestStep) (c : coreapi.Container).

(** The pod [generatePods] makes of a base pod, written out. *)
Lemma decoratePod_eq s ri rl base labels c rest :
  coreapi.Labels base = Some labels →
  coreapi.Containers base = c :: rest →
  decoratePod s ri rl base =
    Some (coreapi.mkPod
            (coreapi.pod_Name base)
            (Some (<[multiStageTestLabel := name s]> labels))
            (coreapi.Annotations base)
            (coreapi.OwnerReferences base
               ++ match api.Owner (jobSpec s) with Some o => [o] | None => [] end)
            (coreapi.Volumes base ++ addedVolumes s)
            (coreapi.InitContainers base ++ [wrapperInitContainer])
            (coreapi.mkContainer
               (coreapi.Image c) (coreapi.Name c) [wrapperBin]
               (coreapi.Command c ++ coreapi.Args c)
               (coreapi.Env c ++ addedEnv s ri rl)
               (coreapi.Resources c)
               (coreapi.VolumeMounts c ++ addedMounts s)
               (coreapi.TerminationPolicy c)
             :: rest)).
Proof.
  destruct base as [n l a o v i cs]; simpl. intros -> ->.
  unfold decoratePod, set_label, addSecretWrapper, addProfile, addSecret,
    update_main, addedEnv, addedVolumes, addedMounts, profileSecretName; simpl.
  destruct (api.Owner (jobSpec s)); destruct (decide (profile s ≠ "")); simpl;
    unfold append_Env, append_VolumeMounts, append_Volumes,
      coreapi.with_OwnerReferences; simpl;
    rewrite <- ?app_assoc, ?app_nil_r; reflexivity.
Qed.

(** Each pod of a phase is its step's base pod with the test's label set
    (over any value it had), the job's owner appended, the wrapper, profile
    and results-secret volumes and mounts appended in that order, the
    environment appended with [CLUSTER_TYPE] before [KUBECONFIG], and the
    command put behind the wrapper; the name, annotations, image, resources
    and the other containers are those of the base pod. *)
Theorem generatePods_shape s ri rl steps :
  base_pods_well_formed →
  ∃ pods,
    generatePods s ri rl steps
      = Some (pods, NewAggregate (omap (synthesisError s) steps)) ∧
    Forall2 (shaped s ri rl) (synthesized s steps) pods.
Proof.
  intros Hwf.
  destruct (generatePods_spec s ri rl steps Hwf) as (pods & Hgen & Hall).
  exists pods. split; [done|].
  eapply Forall2_impl; [exact Hall|].
  intros [step base] pod (Hb & Hdec & _). simpl in *.
  destruct (basePodOf_well_formed _ _ _ Hwf Hb) as [[labels Hl] Hc].
  destruct (coreapi.Containers base) as [|c rest] eqn:Hcs; [done|].
  exists labels, c, rest. split; [done|]. split; [done|].
  rewrite (decoratePod_eq s ri rl base labels c rest Hl Hcs) in Hdec.
  by injection Hdec as <-.
Qed.

(** Synthesis keeps mounts resolvable: when every mount of the base pod's
    first container names a volume of the base pod, the same holds of the
    synthesised pod. *)
Theorem generatePods_mounts_resolved s ri rl steps :
  base_pods_well_formed →
  (∀ step base, basePodOf s step = inr base → mounts_resolved base) →
  ∃ pods e,
    generatePods s ri rl steps = Some (pods, e) ∧
    Forall mounts_resolved pods.
Proof.
  intros Hwf Hbase.
  destruct (generatePods_spec s ri rl steps Hwf) as (pods & Hgen & Hall).
  exists pods, (NewAggregate (omap (synthesisError s) steps)). split; [done|].
  clear Hgen. induction Hall as [|[step base] pod sbs pods (Hb & Hdec & _) _ IH];
    constructor; [|exact IH]. simpl in *.
  destruct (basePodOf_well_formed _ _ _ Hwf Hb) as [[labels Hl] Hc].
  destruct (coreapi.Containers base) as [|c rest] eqn:Hcs; [done|].
  rewrite (decoratePod_eq s ri rl base labels c rest Hl Hcs) in Hdec.
  injection Hdec as <-.
  intros c' rest' m [= <- <-]. simpl.
  rewrite elem_of_app, fmap_app, elem_of_app. intros [Hm|Hm].
  - left. by eapply (Hbase step base Hb c rest).
  - right. unfold addedMounts, addedVolumes in *.
    destruct (decide (profile s ≠ "")); simpl in Hm |- *;
      rewrite !elem_of_cons, ?elem_of_nil in Hm;
      rewrite !elem_of_cons; intuition (subst; auto).
Qed.


End SynthesisShape.

(** [JOB_NAME_SAFE] is the test name with every underscore turned into a
    hyphen: the value has no underscore and the length of the name, a name
    without underscores is passed as it is, and every other character stays
    in its place. *)
Theorem replace_underscores_safe (t : string) :
  ("_"%char ∉ chars (replace_underscores t)) ∧
  length (chars (replace_underscores t)) = length (chars t) ∧
  (("_"%char ∉ chars t) → replace_underscores t = t) ∧
  (∀ (i : nat) (ch : ascii), chars t !! i = Some ch → ch ≠ "_"%char →
          chars (replace_underscores t) !! i = Some ch).
Proof.
  induction t as [|a t (IH1 & IH2 & IH3 & IH4)]; simpl.
  { split; [apply not_elem_of_nil|]. by repeat split. }
  destruct (Ascii.eqb_spec a "_"%char) as [->|Ha].
  - split; [|split; [|split]].
    + rewrite elem_of_cons. by intros [[=]|?].
    + by rewrite IH2.
    + rewrite elem_of_cons. intros []. by left.
    + intros [|i] ch; simpl; [by intros [= <-]|]. apply IH4.
  - split; [|split; [|split]].
    + rewrite elem_of_cons. by intros [?|?].
    + by rewrite IH2.
    + rewrite elem_of_cons. intros Hn. rewrite IH3; [done|].
      intros ?. apply Hn. by right.
    + intros [|i] ch; simpl; [done|]. apply IH4.
Qed.

(** ** Further properties of running pods *)

Section ExecutionShape.

Context {Cluster : Type}.
Context `{!SecretsGetter Cluster, !PodClient Cluster, !Package Cluster}.

Implicit Types (s : multiStageTestStep) (pod : coreapi.Pod) (st : State Cluster).

Lemma same_settings_refl st : same_settings st st.
Proof. by split. Qed.

Lemma same_settings_trans st st' st'' :
  same_settings st st' → same_settings st' st'' → same_settings st st''.
Proof. intros [] []. split; congruence. Qed.

Lemma grew_refl st : grew st st.
Proof. by split. Qed.

Lemma grew_trans st st' st'' : grew st st' → grew st' st'' → grew st st''.
Proof. intros [] []. split; by etrans. Qed.

(** What one pod adds: outside dry-run mode a submission and, if it was
    accepted, the wait for the pod; the sub-tests of the notifier when the
    pod succeeded; in dry-run mode the pod itself in the log. *)
Lemma runPod_effect s pod notifier st :
  let ns := api.Namespace (jobSpec s) in
  let r := runPod s pod notifier st in
  same_settings st r.2 ∧ grew st r.2 ∧
  (dry st = false →
   ∃ new, calls r.2 = calls st ++ new ∧ pod_calls ns new = true ∧
          submitted new = [pod] ∧ logged r.2 = logged st) ∧
  (dry st = false → r.1 = None →
   ∃ notifier',
     subTests r.2 =
       subTests st ++ SubTests notifier'
                        ("Run multi-stage test " +:+ name s +:+ " - "
                           +:+ coreapi.pod_Name pod +:+ " ")).
Proof.
  assert (∀ A (l k : list A), l `prefix_of` l ++ k) as Hgrow
    by (intros; by apply prefix_app_r).
  assert (∀ A (l : list A), l `prefix_of` l) as Hsame by done.
  destruct st as [d ri rl sub c lg cl]. simpl.
  unfold runPod. step_actions. destruct d; simpl.
  { split; [done|]. split; [by split; simpl|]. by split. }
  destruct (createOrRestartPod _ _ _) as [[e|] c1]; simpl.
  { split; [done|]. split; [by split; simpl|].
    split; [|done]. intros _. eexists. split; [done|]. simpl.
    by rewrite bool_decide_eq_true_2. }
  destruct (waitForPodCompletion _ _ _ _) as [[[e|] n] c2]; simpl.
  - split; [done|]. split; [split; simpl; [done|done|]|].
    { rewrite <- app_assoc. apply Hgrow. }
    split; [|done]. intros _. eexists. split; [by rewrite <- app_assoc|]. simpl.
    by rewrite !bool_decide_eq_true_2.
  - split; [done|]. split; [split; simpl; [apply Hgrow|done|]|].
    { rewrite <- app_assoc. apply Hgrow. }
    split.
    + intros _. eexists. split; [by rewrite <- app_assoc|]. simpl.
      by rewrite !bool_decide_eq_true_2.
    + intros _ _. by exists n.
Qed.

Lemma pod_calls_app ns trace trace' :
  pod_calls ns trace = true → pod_calls ns trace' = true →
  pod_calls ns (trace ++ trace') = true.
Proof.
  revert trace. fix IH 1. intros [|call trace]; [done|]. simpl.
  destruct call as [| | |ns' pod [e|]| |]; try done.
  - intros [? ?]%andb_true_iff ?. apply andb_true_iff. split; [done|]. by apply IH.
  - destruct trace as [|call' trace]; [done|].
    destruct call' as [| | | |ns'' podName r|]; try done. simpl.
    intros [? ?]%andb_true_iff ?. apply andb_true_iff. split; [done|]. by apply IH.
Qed.

(** The loop of [runPods], for either mode. *)
Lemma runPods_loop_effect s pods shortCircuit errs st :
  let r := runPods_loop s pods shortCircuit errs st in
  same_settings st r.2 ∧ grew st r.2 ∧
  (dry st = false →
   ∃ new k,
     calls r.2 = calls st ++ new ∧
     pod_calls (api.Namespace (jobSpec s)) new = true ∧
     submitted new = take k pods ∧
     logged r.2 = logged st ∧
     (pods ≠ [] → k ≠ 0%nat) ∧
     (shortCircuit = false ∨ r.1 = errs → k = length pods)).
Proof.
  revert errs st. induction pods as [|pod pods IH]; intros errs st.
  { simpl. split; [apply same_settings_refl|]. split; [apply grew_refl|].
    intros _. exists [], 0%nat. by rewrite app_nil_r. }
  rewrite runPods_loop_cons. simpl.
  pose proof (runPod_effect s pod (NewTestCaseNotifier (notifierFor s pod)) st)
    as (Hs & Hg & Hc & _). simpl in *.
  destruct (runPod s pod _ st) as [[e|] st1]; simpl in *.
  - destruct shortCircuit.
    + split; [done|]. split; [done|]. intros Hdry.
      destruct (Hc Hdry) as (new & Hcalls & Hpc & Hsub & Hlog).
      exists new, 1%nat. repeat split; try done.
      intros [?|Herr]; [done|]. exfalso. simpl in Herr.
      apply (f_equal length) in Herr. rewrite length_app in Herr. simpl in Herr. lia.
    + destruct (IH (errs ++ [e]) st1) as (Hs' & Hg' & Hc').
      split; [by eapply same_settings_trans|]. split; [by eapply grew_trans|].
      intros Hdry. destruct (Hc Hdry) as (new & Hcalls & Hpc & Hsub & Hlog).
      destruct Hc' as (new' & k & Hcalls' & Hpc' & Hsub' & Hlog' & _ & Hk).
      { destruct Hs. congruence. }
      exists (new ++ new'), (S k). repeat split; try done.
      * by rewrite Hcalls', Hcalls, <- app_assoc.
      * by apply pod_calls_app.
      * unfold submitted in *. by rewrite omap_app, Hsub, Hsub'.
      * congruence.
      * intros _. simpl. f_equal. apply Hk. by left.
  - destruct (IH errs st1) as (Hs' & Hg' & Hc').
    split; [by eapply same_settings_trans|]. split; [by eapply grew_trans|].
    intros Hdry. destruct (Hc Hdry) as (new & Hcalls & Hpc & Hsub & Hlog).
    destruct Hc' as (new' & k & Hcalls' & Hpc' & Hsub' & Hlog' & _ & Hk).
    { destruct Hs. congruence. }
    exists (new ++ new'), (S k). repeat split; try done.
    + by rewrite Hcalls', Hcalls, <- app_assoc.
    + by apply pod_calls_app.
    + unfold submitted in *. by rewrite omap_app, Hsub, Hsub'.
    + congruence.
    + intros Hor. simpl. f_equal. by apply Hk.
Qed.

Lemma runPods_trace s pods shortCircuit st :
  dry st = false →
  ∃ new k,
    calls (runPods s pods shortCircuit st).2 = calls st ++ new ∧
    pod_calls (api.Namespace (jobSpec s)) new = true ∧
    submitted new = take k pods ∧
    (pods ≠ [] → k ≠ 0%nat) ∧
    (shortCircuit = false ∨ (runPods s pods shortCircuit st).1 = None →
     k = length pods).
Proof.
  intros Hdry. unfold runPods, bind, ret.
  pose proof (runPods_loop_effect s pods shortCircuit [] st) as (_ & _ & Hc).
  simpl in Hc. destruct (Hc Hdry) as (new & k & Hcalls & Hpc & Hsub & _ & Hk0 & Hk).
  destruct (runPods_loop s pods shortCircuit [] st) as [errs st1]. simpl in *.
  exists new, k. repeat split; try done.
  intros [?|Hnone]; apply Hk; [by left|right].
  by destruct errs.
Qed.

(** The calls a phase adds are, pod by pod and in the order of the pods, a
    submission followed by the wait for that pod exactly when the submission
    was accepted, and nothing else; the pods submitted are the first [k] of
    the phase, with [k] at least one when there is a pod, and all of them
    when short-circuit is off or the phase returned no error. *)
Theorem runPods_calls s pods shortCircuit st :
  dry st = false →
  ∃ new k,
    calls (runPods s pods shortCircuit st).2 = calls st ++ new ∧
    pod_calls (api.Namespace (jobSpec s)) new = true ∧
    submitted new = take k pods ∧
    (pods ≠ [] → k ≠ 0%nat) ∧
    (shortCircuit = false ∨ (runPods s pods shortCircuit st).1 = None →
     k = length pods).
Proof.
  intros Hdry. unfold runPods, bind, ret.
  pose proof (runPods_loop_effect s pods shortCircuit [] st) as (_ & _ & Hc).
  simpl in Hc. destruct (Hc Hdry) as (new & k & Hcalls & Hpc & Hsub & _ & Hk0 & Hk).
  destruct (runPods_loop s pods shortCircuit [] st) as [errs st1]. simpl in *.
  exists new, k. repeat split; try done.
  intros [?|Hnone]; apply Hk; [by left|right].
  by destruct errs.
Qed.

Lemma runPods_effect s pods shortCircuit st :
  same_settings st (runPods s pods shortCircuit st).2 ∧
  grew st (runPods s pods shortCircuit st).2 ∧
  (dry st = false → logged (runPods s pods shortCircuit st).2 = logged st).
Proof.
  unfold runPods, bind, ret.
  pose proof (runPods_loop_effect s pods shortCircuit [] st) as (Hs & Hg & Hc).
  simpl in *. destruct (runPods_loop s pods shortCircuit [] st) as [errs st1].
  simpl in *. split; [done|]. split; [done|]. intros Hdry.
  by destruct (Hc Hdry) as (new & k & _ & _ & _ & Hlog & _).
Qed.

Lemma phasePods_same_settings s st st' steps :
  same_settings st st' → phasePods s st' steps = phasePods s st steps.
Proof. intros [_ Hi Hl]. unfold phasePods. by rewrite Hi, Hl. Qed.

(** One phase, whichever way it ends. *)
Lemma runSteps_effect s steps shortCircuit st r st' :
  runSteps s steps shortCircuit st = Some (r, st') →
  same_settings st st' ∧ grew st st' ∧
  (dry st = false →
   ∃ k, submitted (calls st') = submitted (calls st) ++ take k (phasePods s st steps) ∧
        (r = None → k = length (phasePods s st steps)) ∧
        logged st' = logged st).
Proof.
  unfold runSteps, phasePods.
  destruct (generatePods _ _ _ _) as [[pods [e|]]|]; [| |done].
  - intros [= <- <-]. split; [apply same_settings_refl|]. split; [apply grew_refl|].
    intros _. exists 0%nat. simpl. by rewrite app_nil_r.
  - intros Hrun.
    pose proof (runPods_effect s pods shortCircuit st) as (Hs & Hg & Hlog).
    pose proof (runPods_trace s pods shortCircuit st) as Hc.
    assert (runPods s pods shortCircuit st = (r, st')) as E by congruence.
    rewrite E in *. simpl in *.
    split; [done|]. split; [done|]. intros Hdry.
    destruct (Hc Hdry) as (new & k & Hcalls & _ & Hsub & _ & Hk).
    exists k. split; [|split; [|by apply Hlog]].
    + unfold submitted in *. by rewrite Hcalls, omap_app, Hsub.
    + intros Hnone. apply Hk. by right.
Qed.

Lemma createSecret_effect s st :
  same_settings st (createSecret s st).2 ∧ grew st (createSecret s st).2 ∧
  submitted (calls (createSecret s st).2) = submitted (calls st) ∧
  subTests (createSecret s st).2 = subTests st.
Proof.
  assert (∀ A (l k : list A), l `prefix_of` l ++ k) as Hgrow
    by (intros; by apply prefix_app_r).
  destruct st as [d ri rl sub c lg cl].
  unfold createSecret. step_actions. destruct d; simpl.
  { split; [done|]. split; [by split; simpl|]. done. }
  destruct (Secrets_Delete _ _ _) as [[e|] c1]; simpl;
    [destruct (IsNotFound e); simpl|];
    try destruct (Secrets_Create _ _ _) as [r c2]; simpl;
    (split; [done|]); (split; [split; simpl; try done|]);
    rewrite <- ?app_assoc; try apply Hgrow;
    unfold submitted; by rewrite ?omap_app, ?app_nil_r.
Qed.

Lemma resolveProfile_effect s st :
  grew st (resolveProfile s st).2 ∧
  dry (resolveProfile s st).2 = dry st ∧
  submitted (calls (resolveProfile s st).2) = submitted (calls st) ∧
  subTests (resolveProfile s st).2 = subTests st ∧
  logged (resolveProfile s st).2 = logged st.
Proof.
  assert (∀ A (l k : list A), l `prefix_of` l ++ k) as Hgrow
    by (intros; by apply prefix_app_r).
  destruct st as [d ri rl sub c lg cl].
  unfold resolveProfile. destruct (decide (profile s ≠ "")); [|done].
  step_actions.
  destruct (Secrets_Get _ _ _) as [e|]; simpl.
  { split; [by split; simpl|]. unfold submitted. by rewrite omap_app, app_nil_r. }
  destruct (api.Get (params s) "RELEASE_IMAGE_INITIAL") as [initial [e|]]; simpl.
  { split; [by split; simpl|]. unfold submitted. by rewrite omap_app, app_nil_r. }
  destruct (api.Get (params s) "RELEASE_IMAGE_LATEST") as [latest e]; simpl.
  split; [by split; simpl|]. unfold submitted. by rewrite omap_app, app_nil_r.
Qed.


End ExecutionShape.

(** ** Further properties of [Run] *)

Section RunShape.

Context {Cluster : Type}.
Context `{!SecretsGetter Cluster, !PodClient Cluster, !Package Cluster}.

Implicit Types (s : multiStageTestStep) (pod : coreapi.Pod) (st : State Cluster).

(** The ways [Run] returns. *)
Lemma Run_inv s d st r st' :
  Run s d st = Some (r, st') →
  let p := resolveProfile s (set_dry d st) in
  let c := createSecret s p.2 in
  (∃ e, p.1 = Some e ∧ r = Some e ∧ st' = p.2) ∨
  (p.1 = None ∧ ∃ e, c.1 = Some e ∧
     r = Some (Errorf "failed to create secret: %v" [err e]) ∧ st' = c.2) ∨
  (p.1 = None ∧ c.1 = None ∧
   ∃ preFailed st3 testFailed st4 postFailed,
     runSteps s (pre s) true c.2 = Some (preFailed, st3) ∧
     match preFailed with
     | None => runSteps s (test s) true st3 = Some (testFailed, st4)
     | Some _ => testFailed = None ∧ st4 = st3
     end ∧
     runSteps s (post s) false st4 = Some (postFailed, st') ∧
     r = NewAggregate (phaseErrors s preFailed testFailed postFailed)).
Proof.
  unfold Run, bindM, lift, retM, modify. simpl.
  destruct (resolveProfile s (set_dry d st)) as [[e|] st1]; simpl.
  { intros [= <- <-]. left. by exists e. }
  destruct (createSecret s st1) as [[e|] st2]; simpl.
  { intros [= <- <-]. right. left. split; [done|]. by exists e. }
  intros Hrun. right. right. split; [done|]. split; [done|].
  destruct (runSteps s (pre s) true st2) as [[preFailed st3]|] eqn:Hpre; [|done].
  unfold phaseErrors. destruct preFailed as [e|].
  - destruct (runSteps s (post s) false st3) as [[postFailed st5]|] eqn:Hpost; [|done].
    injection Hrun as <- <-.
    exists (Some e), st3, None, st3, postFailed. repeat split; try done.
    by destruct postFailed.
  - destruct (runSteps s (test s) true st3) as [[testFailed st4]|] eqn:Htest; [|done].
    assert (∃ postFailed, runSteps s (post s) false st4 = Some (postFailed, st') ∧
              r = NewAggregate
                    (match testFailed with
                     | Some e => [Errorf "%q test steps failed: %v" [str (name s); err e]]
                     | None => []
                     end ++ match postFailed with
                            | Some e => [Errorf "%q post steps failed: %v"
                                                [str (name s); err e]]
                            | None => []
                            end)) as (postFailed & Hpost & Hr).
    { destruct testFailed;
        destruct (runSteps s (post s) false st4) as [[postFailed st5]|]; try done;
        injection Hrun as <- <-; exists postFailed; by destruct postFailed. }
    by exists None, st3, testFailed, st4, postFailed.
Qed.

(** [Run] sets the dry flag and otherwise only appends: the sub-tests and
    logged objects present before are kept in place (the sub-tests of an
    earlier run are not reset), and outside dry-run mode nothing is logged. *)
Theorem Run_only_appends s d st r st' :
  Run s d st = Some (r, st') →
  dry st' = d ∧
  subTests st `prefix_of` subTests st' ∧
  logged st `prefix_of` logged st' ∧
  (d = false → logged st' = logged st).
Proof.
  intros Hrun. apply Run_inv in Hrun. simpl in Hrun.
  pose proof (resolveProfile_effect s (set_dry d st)) as (Hg1 & Hd1 & _ & _ & Hl1).
  simpl in Hd1, Hl1. destruct Hg1 as [Hg1s Hg1l _]. simpl in Hg1s, Hg1l.
  pose proof (createSecret_effect s (resolveProfile s (set_dry d st)).2)
    as (Hs2 & Hg2 & _ & _).
  assert (dry (createSecret s (resolveProfile s (set_dry d st)).2).2 = d) as Hd2
    by (destruct Hs2; congruence).
  assert (d = false →
          logged (createSecret s (resolveProfile s (set_dry d st)).2).2 = logged st) as Hl2.
  { intros ->. rewrite <- Hl1.
    pose proof (createSecret_live s (resolveProfile s (set_dry false st)).2 Hd1) as Hc.
    simpl in Hc. rewrite Hc.
    destruct (Secrets_Delete _ _ _) as [[e|] c1]; simpl; [destruct (IsNotFound e)|]; done. }
  destruct Hrun as [(e & _ & _ & ->)|[(_ & e & _ & _ & ->)|
    (_ & _ & preFailed & st3 & testFailed & st4 & postFailed & Hpre & Htest & Hpost & _)]].
  - split; [done|]. split; [done|]. split; [done|]. by intros _.
  - destruct Hg2. split; [done|]. split; [by etrans|]. split; [by etrans|done].
  - apply runSteps_effect in Hpre as (Hs3 & Hg3 & Hc3).
    assert (same_settings st3 st4 ∧ grew st3 st4 ∧
            (dry st3 = false → logged st4 = logged st3)) as (Hs4 & Hg4 & Hc4).
    { destruct preFailed.
      - destruct Htest as [_ ->]. split; [apply same_settings_refl|].
        split; [apply grew_refl|done].
      - apply runSteps_effect in Htest as (? & ? & Hc). split; [done|]. split; [done|].
        intros Hd. by destruct (Hc Hd) as (k & _ & _ & ?). }
    apply runSteps_effect in Hpost as (Hs5 & Hg5 & Hc5).
    destruct Hs3, Hs4, Hs5, Hg2, Hg3, Hg4, Hg5.
    split; [congruence|].
    split; [by repeat (etrans; [eassumption|])|].
    split; [by repeat (etrans; [eassumption|])|].
    intros ->.
    destruct Hc3 as (k3 & _ & _ & Hl3); [congruence|].
    destruct Hc5 as (k5 & _ & _ & Hl5); [congruence|].
    rewrite Hl5, Hc4, Hl3 by congruence. by apply Hl2.
Qed.

(** Outside dry-run mode the pods [Run] submits are, in this order, the
    first pods of the pre phase, of the test phase and of the post phase,
    each phase synthesised with the release images in force after the
    profile block; a pod of the test phase is submitted only after every pod
    of the pre phase was. *)
Theorem Run_submits_in_order s st st1 r st' :
  resolveProfile s (set_dry false st) = (None, st1) →
  Run s false st = Some (r, st') →
  ∃ k1 k2 k3,
    submitted (calls st') =
      submitted (calls st)
        ++ take k1 (phasePods s st1 (pre s))
        ++ take k2 (phasePods s st1 (test s))
        ++ take k3 (phasePods s st1 (post s)) ∧
    (k2 ≠ 0%nat → k1 = length (phasePods s st1 (pre s))).
Proof.
  intros Hp Hrun. apply Run_inv in Hrun. simpl in Hrun. rewrite Hp in Hrun.
  simpl in Hrun.
  pose proof (resolveProfile_effect s (set_dry false st)) as (_ & Hd1 & Hsub1 & _).
  rewrite Hp in Hd1, Hsub1. simpl in Hd1, Hsub1.
  pose proof (createSecret_effect s st1) as (Hs2 & _ & Hsub2 & _).
  destruct Hrun as [(e & ? & _)|[(_ & e & _ & _ & ->)|
    (_ & _ & preFailed & st3 & testFailed & st4 & postFailed & Hpre & Htest & Hpost & _)]];
    [done| |].
  { exists 0%nat, 0%nat, 0%nat. simpl. split; [|done].
    by rewrite app_nil_r, Hsub2, Hsub1. }
  assert (dry (createSecret s st1).2 = false) as Hd2 by (destruct Hs2; congruence).
  apply runSteps_effect in Hpre as (Hs3 & _ & Hc3).
  destruct (Hc3 Hd2) as (k1 & Hsub3 & Hk1 & _).
  assert (dry st3 = false) as Hd3 by (destruct Hs3; congruence).
  assert (∃ k2, submitted (calls st4)
                  = submitted (calls st3) ++ take k2 (phasePods s st3 (test s)) ∧
                (k2 ≠ 0%nat → preFailed = None) ∧
                same_settings st3 st4) as (k2 & Hsub4 & Hk2 & Hs4).
  { destruct preFailed as [e|].
    - destruct Htest as [_ ->]. exists 0%nat. simpl.
      rewrite app_nil_r. split; [done|]. split; [done|apply same_settings_refl].
    - apply runSteps_effect in Htest as (Hs4 & _ & Hc4).
      destruct (Hc4 Hd3) as (k2 & ? & _). by exists k2. }
  assert (dry st4 = false) as Hd4 by (destruct Hs4; congruence).
  apply runSteps_effect in Hpost as (_ & _ & Hc5).
  destruct (Hc5 Hd4) as (k3 & Hsub5 & _).
  assert (same_settings st1 st3) as H13 by (by eapply same_settings_trans).
  assert (same_settings st1 st4) as H14 by (by eapply same_settings_trans).
  rewrite (phasePods_same_settings s st1 _ _ Hs2) in Hsub3, Hk1.
  rewrite (phasePods_same_settings s st1 _ _ H13) in Hsub4.
  rewrite (phasePods_same_settings s st1 _ _ H14) in Hsub5.
  exists k1, k2, k3. split.
  - by rewrite Hsub5, Hsub4, Hsub3, Hsub2, Hsub1, <- !app_assoc.
  - intros Hk. apply Hk1. by apply Hk2.
Qed.

(** With no steps in any phase [Run] returns whatever the base pods are: it
    succeeds exactly when the profile block and [createSecret] do, submits
    no pod and records no sub-test. *)
Theorem Run_no_steps s d st :
  pre s = [] → test s = [] → post s = [] →
  let p := resolveProfile s (set_dry d st) in
  let c := createSecret s p.2 in
  Run s d st =
    Some match p.1 with
         | Some e => (Some e, p.2)
         | None =>
             (match c.1 with
              | Some e => Some (Errorf "failed to create secret: %v" [err e])
              | None => None
              end, c.2)
         end ∧
  ∀ r st', Run s d st = Some (r, st') →
           subTests st' = subTests st ∧
           submitted (calls st') = submitted (calls st).
Proof.
  intros Hpre Htest Hpost p c.
  assert (Run s d st =
            Some match p.1 with
                 | Some e => (Some e, p.2)
                 | None =>
                     (match c.1 with
                      | Some e => Some (Errorf "failed to create secret: %v" [err e])
                      | None => None
                      end, c.2)
                 end) as Hrun.
  { unfold c, p, Run, bindM, lift, retM, modify. simpl.
    destruct (resolveProfile s (set_dry d st)) as [[e|] st1]; simpl; [done|].
    destruct (createSecret s st1) as [[e|] st2]; simpl; [done|].
    unfold runSteps. by rewrite Hpre, Htest, Hpost. }
  split; [done|]. intros r st'. rewrite Hrun.
  pose proof (resolveProfile_effect s (set_dry d st)) as (_ & _ & Hsub1 & Hst1 & _).
  pose proof (createSecret_effect s p.2) as (_ & _ & Hsub2 & Hst2).
  fold p in Hsub1, Hst1. fold c in Hsub2, Hst2. simpl in Hsub1, Hst1.
  destruct (p.1); [intros [= <- <-]; by split|].
  intros [= <- <-]. split; congruence.
Qed.

(** A dry run whose steps all synthesise logs the results secret and then
    the pods of the pre, test and post phases in order, and returns no
    error; the test phase is never skipped, since no pod fails in a dry
    run. *)
Theorem Run_dry_logs s st st1 prePods testPods postPods :
  resolveProfile s (set_dry true st) = (None, st1) →
  generatePods s (releaseInitial st1) (releaseLatest st1) (pre s)
    = Some (prePods, None) →
  generatePods s (releaseInitial st1) (releaseLatest st1) (test s)
    = Some (testPods, None) →
  generatePods s (releaseInitial st1) (releaseLatest st1) (post s)
    = Some (postPods, None) →
  Run s true st =
    Some (None,
          logging (SecretObject (coreapi.mkSecret (name s))
                     :: (PodObject <$> (prePods ++ testPods ++ postPods))) st1).
Proof.
  intros Hp Hpre Htest Hpost.
  assert (dry st1 = true) as Hdry.
  { pose proof (resolveProfile_effect s (set_dry true st)) as (_ & Hd & _).
    by rewrite Hp in Hd. }
  unfold Run, bindM, lift, retM, modify. rewrite Hp.
  rewrite createSecret_dry by done.
  unfold runSteps. simpl. rewrite Hpre.
  rewrite runPods_dry by done. simpl. rewrite Htest.
  rewrite runPods_dry by done. simpl. rewrite Hpost.
  rewrite runPods_dry by done. simpl.
  rewrite !logging_app, !fmap_app. simpl. by rewrite <- ?app_assoc.
Qed.

(** The clean-up after a cancellation selects the pods by the label that
    synthesis puts on every pod of the test: outside dry-run mode it issues
    one [DeleteCollection] with the selector [label=name] and nothing else,
    whatever that call returns, and [deletePods] returns an error exactly
    when the call failed with something other than not-found. *)
Theorem cleanup_selects_label s ri rl steps st :
  base_pods_well_formed → dry st = false →
  let ns := api.Namespace (jobSpec s) in
  let selector := multiStageTestLabel +:+ "=" +:+ name s in
  let deleted := Pods_DeleteCollection ns selector (cluster st) in
  (∃ pods e,
     generatePods s ri rl steps = Some (pods, e) ∧
     Forall (λ pod, ∃ labels, coreapi.Labels pod = Some labels ∧
                              labels !! multiStageTestLabel = Some (name s)) pods) ∧
  cleanup s st
    = (tt, record (DeleteCollection ns selector deleted.1) (set_cluster deleted.2 st)) ∧
  ((deletePods ns (name s) st).1 = None
     ↔ deleted.1 = None ∨ ∃ e, deleted.1 = Some e ∧ IsNotFound e = true).
Proof.
  intros Hwf Hdry ns selector deleted. split; [|split].
  - destruct (generatePods_spec s ri rl steps Hwf) as (pods & Hgen & Hall).
    exists pods, (NewAggregate (omap (synthesisError s) steps)). split; [done|].
    clear Hgen. induction Hall as [|[step base] pod sbs pods (Hb & Hdec & _) _ IH];
      constructor; [|exact IH]. simpl in *.
    destruct (basePodOf_well_formed _ _ _ Hwf Hb) as [[labels Hl] Hc].
    destruct (coreapi.Containers base) as [|c rest] eqn:Hcs; [done|].
    rewrite (decoratePod_eq s ri rl base labels c rest Hl Hcs) in Hdec.
    injection Hdec as <-. eexists. split; [done|]. apply lookup_insert_eq.
  - unfold deleted, selector, ns. destruct st as [d ri' rl' sub c lg cl].
    simpl in *. subst d. unfold cleanup, deletePods. step_actions.
    destruct (Pods_DeleteCollection _ _ _) as [[e|] c1]; simpl; [|done].
    by destruct (IsNotFound e).
  - unfold deleted, selector, ns, deletePods. step_actions.
    destruct (Pods_DeleteCollection _ _ _) as [[e|] c1]; simpl.
    + destruct (IsNotFound e) eqn:Hnf; simpl.
      * split; [|done]. intros _. right. by exists e.
      * split; [done|]. intros [?|(e' & [= <-] & ?)]; congruence.
    + split; [|done]. intros _. by left.
Qed.


Lemma runSteps_trace s steps shortCircuit st r st' :
  dry st = false →
  runSteps s steps shortCircuit st = Some (r, st') →
  ∃ new, calls st' = calls st ++ new ∧
         pod_calls (api.Namespace (jobSpec s)) new = true.
Proof.
  intros Hdry. unfold runSteps.
  destruct (generatePods _ _ _ _) as [[pods [e|]]|]; [| |done].
  - intros [= <- <-]. exists []. by rewrite app_nil_r.
  - intros Hrun.
    destruct (runPods_trace s pods shortCircuit st Hdry) as (new & k & Hcalls & Hpc & _).
    assert (runPods s pods shortCircuit st = (r, st')) as E by congruence.
    rewrite E in Hcalls. by exists new.
Qed.

(** Outside dry-run mode the calls of a [Run] are at most three calls on
    secrets (the read of the profile secret, the delete and the create of
    the results secret) followed by calls that submit pods and wait for
    them: no secret is touched once a pod was submitted, and [Run] itself
    never deletes a pod. *)
Theorem Run_calls s st r st' :
  Run s false st = Some (r, st') →
  ∃ secretCalls podCalls,
    calls st' = calls st ++ secretCalls ++ podCalls ∧
    Forall (λ c, secret_call c = true) secretCalls ∧
    length secretCalls ≤ 3 ∧
    pod_calls (api.Namespace (jobSpec s)) podCalls = true.
Proof.
  intros Hrun. apply Run_inv in Hrun. simpl in Hrun.
  assert (∃ gets, calls (resolveProfile s (set_dry false st)).2 = calls st ++ gets ∧
                  Forall (λ c, secret_call c = true) gets ∧ length gets ≤ 1 ∧
                  dry (resolveProfile s (set_dry false st)).2 = false)
    as (gets & Hgets & Hsg & Hlg & Hd1).
  { unfold resolveProfile. destruct (decide (profile s ≠ "")).
    - step_actions. exists [SecretsGet (api.Namespace (jobSpec s)) (profileSecretName s)
                             (Secrets_Get (api.Namespace (jobSpec s)) (profileSecretName s)
                                (cluster st))].
      destruct (Secrets_Get _ _ _) as [e|]; simpl; [by repeat constructor|].
      destruct (api.Get (params s) "RELEASE_IMAGE_INITIAL") as [initial [e|]]; simpl;
        [by repeat constructor|].
      destruct (api.Get (params s) "RELEASE_IMAGE_LATEST") as [latest e]; simpl.
      by repeat constructor.
    - exists []. simpl. rewrite app_nil_r. repeat split; [constructor|lia]. }
  assert (∃ recreate,
            calls (createSecret s (resolveProfile s (set_dry false st)).2).2
              = calls (resolveProfile s (set_dry false st)).2 ++ recreate ∧
            Forall (λ c, secret_call c = true) recreate ∧ length recreate ≤ 2 ∧
            dry (createSecret s (resolveProfile s (set_dry false st)).2).2 = false)
    as (recreate & Hrecreate & Hsr & Hlr & Hd2).
  { pose proof (createSecret_live s _ Hd1) as Hc. simpl in Hc. rewrite Hc.
    destruct (Secrets_Delete _ _ _) as [[e|] c1]; simpl;
      [destruct (IsNotFound e); simpl|];
      try (destruct (Secrets_Create _ _ _) as [cr c2]; simpl);
      eexists; (split; [by rewrite <- ?app_assoc|]);
      (split; [by repeat constructor|]); simpl; split; (lia || done). }
  destruct Hrun as [(e & _ & _ & ->)|[(_ & e & _ & _ & ->)|
    (_ & _ & preFailed & st3 & testFailed & st4 & postFailed & Hpre & Htest & Hpost & _)]].
  - exists gets, []. rewrite app_nil_r. repeat split; try done. lia.
  - exists (gets ++ recreate), []. rewrite app_nil_r.
    split; [by rewrite Hrecreate, Hgets, <- app_assoc|].
    split; [by apply Forall_app|]. split; [rewrite length_app; lia|done].
  - destruct (runSteps_effect _ _ _ _ _ _ Hpre) as (Hs3 & _).
    destruct (runSteps_trace _ _ _ _ _ _ Hd2 Hpre) as (new1 & Hc1 & Hp1).
    assert (dry st3 = false) as Hd3 by (destruct Hs3; congruence).
    assert (∃ new2, calls st4 = calls st3 ++ new2 ∧
                    pod_calls (api.Namespace (jobSpec s)) new2 = true ∧
                    dry st4 = false) as (new2 & Hc2 & Hp2 & Hd4).
    { destruct preFailed.
      - destruct Htest as [_ ->]. exists []. by rewrite app_nil_r.
      - destruct (runSteps_effect _ _ _ _ _ _ Htest) as (Hs4 & _).
        destruct (runSteps_trace _ _ _ _ _ _ Hd3 Htest) as (new2 & ? & ?).
        exists new2. repeat split; try done. destruct Hs4. congruence. }
    destruct (runSteps_trace _ _ _ _ _ _ Hd4 Hpost) as (new3 & Hc3 & Hp3).
    exists (gets ++ recreate), (new1 ++ new2 ++ new3).
    split; [by rewrite Hc3, Hc2, Hc1, Hrecreate, Hgets, <- !app_assoc|].
    split; [by apply Forall_app|]. split; [rewrite length_app; lia|].
    by repeat apply pod_calls_app.
Qed.

(** With a cluster profile, the pods of a phase carry in the environment of
    their first container the cluster type of the profile and the two
    release images that the parameter source returned in the profile
    block. *)
Theorem profile_release_images s st st1 steps :
  base_pods_well_formed →
  profile s ≠ "" →
  resolveProfile s st = (None, st1) →
  ∃ pods e,
    generatePods s (releaseInitial st1) (releaseLatest st1) steps = Some (pods, e) ∧
    Forall
      (λ pod, ∃ c rest,
         coreapi.Containers pod = c :: rest ∧
         coreapi.mkEnvVar "CLUSTER_TYPE" (ClusterType (profile s)) ∈ coreapi.Env c ∧
         coreapi.mkEnvVar "RELEASE_IMAGE_INITIAL"
           (api.Get (params s) "RELEASE_IMAGE_INITIAL").1 ∈ coreapi.Env c ∧
         coreapi.mkEnvVar "RELEASE_IMAGE_LATEST"
           (api.Get (params s) "RELEASE_IMAGE_LATEST").1 ∈ coreapi.Env c)
      pods.
Proof.
  intros Hwf Hprofile Hp.
  assert (releaseInitial st1 = (api.Get (params s) "RELEASE_IMAGE_INITIAL").1 ∧
          releaseLatest st1 = (api.Get (params s) "RELEASE_IMAGE_LATEST").1) as [Hi Hl].
  { revert Hp. unfold resolveProfile. rewrite decide_True by done. step_actions.
    destruct (Secrets_Get _ _ _); simpl; [done|].
    destruct (api.Get (params s) "RELEASE_IMAGE_INITIAL") as [initial [e|]]; simpl;
      [done|].
    destruct (api.Get (params s) "RELEASE_IMAGE_LATEST") as [latest e]; simpl.
    by intros [= _ <-]. }
  destruct (generatePods_spec s (releaseInitial st1) (releaseLatest st1) steps Hwf)
    as (pods & Hgen & Hall).
  exists pods, (NewAggregate (omap (synthesisError s) steps)). split; [done|].
  clear Hgen. induction Hall as [|[step base] pod sbs pods (Hb & Hdec & _) _ IH];
    constructor; [|exact IH]. simpl in *.
  destruct (basePodOf_well_formed _ _ _ Hwf Hb) as [[labels Hlab] Hc].
  destruct (coreapi.Containers base) as [|c rest] eqn:Hcs; [done|].
  rewrite (decoratePod_eq s _ _ base labels c rest Hlab Hcs) in Hdec.
  injection Hdec as <-. eexists _, _. split; [done|]. simpl.
  unfold addedEnv. rewrite decide_True by done. rewrite <- Hi, <- Hl.
  rewrite !elem_of_app, !elem_of_cons. naive_solver.
Qed.


End RunShape.

(** ** Properties of the configuration resolver *)

Section Resolver.

Import configresolver.

(** [validateOptions] accepts the options exactly when the log level
    parses, the cycle is not zero, both paths are given and neither is
    reported as not existing, and [--validate-only] and [--flat-registry]
    are not both set.  A path whose [os.Stat] fails for another reason than
    not existing is accepted; the address and the grace period are not
    looked at. *)
Theorem validateOptions_accepts `{Host} (o : options) :
  validateOptions o = None ↔
    ParseLevel (logLevel o) = None ∧
    cycle o ≠ 0%Z ∧
    configPath o ≠ "" ∧ nonexistent (configPath o) = false ∧
    registryPath o ≠ "" ∧ nonexistent (registryPath o) = false ∧
    (validateOnly o && flatRegistry o = false).
Proof.
  unfold validateOptions, nonexistent. split.
  - intros Hv.
    destruct (ParseLevel (logLevel o)); [done|].
    destruct (decide (cycle o = 0%Z)) as [?|Hcycle]; [done|].
    destruct (decide (configPath o = "")) as [?|Hpath]; [done|].
    destruct (Stat (configPath o)) as [e1|];
      [destruct (IsNotExist e1); [done|]|];
      (destruct (decide (registryPath o = "")) as [?|Hpath']; [done|]);
      (destruct (Stat (registryPath o)) as [e2|];
         [destruct (IsNotExist e2); [done|]|]);
      by destruct (validateOnly o && flatRegistry o).
  - intros (-> & Hc & Hp & Hn & Hr & Hn' & ->).
    rewrite decide_False by done. rewrite decide_False by done.
    destruct (Stat (configPath o)) as [e1|]; [rewrite Hn|];
      rewrite decide_False by done;
      (destruct (Stat (registryPath o)) as [e2|]; [rewrite Hn'|]); done.
Qed.

Lemma wrap_int_add (a n : Z) : wrap_int (wrap_int a + n) = wrap_int (a + n).
Proof.
  unfold wrap_int. f_equal.
  replace ((a + 2 ^ 63) mod 2 ^ 64 - 2 ^ 63 + n + 2 ^ 63)%Z
    with ((a + 2 ^ 63) mod 2 ^ 64 + n)%Z by lia.
  rewrite Zplus_mod_idemp_l. f_equal. lia.
Qed.

Lemma traceResponseWriter_aux {W} `{ResponseWriter W}
    (calls : list WriterCall) (w : W) (code size0 : Z) :
  inner (after calls (mkTrace w code size0)) = after calls w ∧
  written calls (mkTrace w code size0) = written calls w ∧
  statusCode (after calls (mkTrace w code size0)) = lastStatus code calls ∧
  size (after calls (mkTrace w code size0))
    = (if decide (written calls w = []) then size0
       else wrap_int (size0 + foldr Z.add 0 (written calls w)))%Z.
Proof.
  revert w code size0. induction calls as [|[c|data] calls IH]; intros w code size0.
  - done.
  - simpl. unfold trace_WriteHeader. simpl.
    destruct (IH (WriteHeader c w) c size0) as (-> & -> & -> & ->). done.
  - simpl. unfold trace_Write. simpl.
    destruct (Write data w) as [[n e] w1] eqn:Hw. simpl.
    destruct (IH w1 code (wrap_int (size0 + n))) as (-> & -> & -> & ->).
    repeat split; try done.
    destruct (decide (written calls w1 = [])) as [->|_]; simpl.
    + by rewrite Z.add_0_r.
    + rewrite wrap_int_add. f_equal. lia.
Qed.

(** [traceResponseWriter] is transparent: whatever calls a handler makes,
    the wrapped writer receives the same calls, the handler is returned the
    same byte counts, the status kept is the last one passed to
    [WriteHeader] (the initial one if there was none), and the size kept is
    the initial size plus the byte counts the wrapped writer returned, as a
    64-bit integer. *)
Theorem traceResponseWriter_transparent {W} `{ResponseWriter W}
    (calls : list WriterCall) (w : W) (code size0 : Z) :
  inner (after calls (mkTrace w code size0)) = after calls w ∧
  written calls (mkTrace w code size0) = written calls w ∧
  statusCode (after calls (mkTrace w code size0)) = lastStatus code calls ∧
  size (after calls (mkTrace w code size0))
    = (if decide (written calls w = []) then size0
       else wrap_int (size0 + foldr Z.add 0 (written calls w)))%Z.
Proof.
  revert w code size0. induction calls as [|[c|data] calls IH]; intros w code size0.
  - done.
  - simpl. unfold trace_WriteHeader. simpl.
    destruct (IH (WriteHeader c w) c size0) as (-> & -> & -> & ->). done.
  - simpl. unfold trace_Write. simpl.
    destruct (Write data w) as [[n e] w1] eqn:Hw. simpl.
    destruct (IH w1 code (wrap_int (size0 + n))) as (-> & -> & -> & ->).
    repeat split; try done.
    destruct (decide (written calls w1 = [])) as [->|_]; simpl.
    + by rewrite Z.add_0_r.
    + rewrite wrap_int_add. f_equal. lia.
Qed.

(** [handleWithMetrics] passes the handler's calls on to the writer
    unchanged and observes, under the status last passed to [WriteHeader]
    (200 if the handler passed none) and the escaped path of the request,
    the latency and the sum of the byte counts the writer returned. *)
Theorem handleWithMetrics_records {W} `{ResponseWriter W}
    (h : HandlerFunc (traceResponseWriter W)) (latency : Z) (w : W) (r : Request)
    (m m' : Metrics) (calls : list WriterCall) :
  h (mkTrace w StatusOK 0) r m = (after calls (mkTrace w StatusOK 0), m') →
  handleWithMetrics h latency w r m =
    (after calls w,
     mkMetrics
       (errorRate m')
       (httpRequestDuration m'
          ++ [((Itoa (lastStatus 200 calls), EscapedPath r), latency)])
       (httpResponseSize m'
          ++ [((Itoa (lastStatus 200 calls), EscapedPath r),
               wrap_int (foldr Z.add 0%Z (written calls w)))])).
Proof.
  intros Hh. unfold handleWithMetrics. rewrite Hh. simpl.
  destruct (traceResponseWriter_aux calls w StatusOK 0) as (-> & _ & -> & ->).
  f_equal. f_equal. f_equal. f_equal.
  by destruct (decide (written calls w = [])) as [->|].
Qed.

Lemma recordError_lookup (label label' : string) (m : Metrics) :
  errorRate (recordError label m) !! label' =
    if decide (label = label') then Some (S (default 0%nat (errorRate m !! label)))
    else errorRate m !! label'.
Proof. unfold recordError. simpl. apply lookup_insert. Qed.

(** [resolveConfig] answers every request with one [WriteHeader] followed
    by one [Write].  The status is 200, with the JSON of the resolved
    configuration as the body, exactly when the method is GET, the org,
    repo and branch of the query are not empty (the variant may be) and the
    look-up, the resolution and the encoding all succeed; every other
    answer but the 501 for another method adds one to the error counter
    under one label, and nothing else in the metrics changes. *)
Theorem resolveConfig_response {W Config} `{ResponseWriter W}
    (MarshalIndent : Config -> error + string)
    (configAgent : ConfigAgent Config) (registryAgent : RegistryAgent Config)
    (w : W) (r : Request) (m : Metrics) :
  let answer := resolved MarshalIndent configAgent registryAgent r in
  let get := Values_Get (Query r) in
  resolveConfig MarshalIndent configAgent registryAgent w r m =
    (after [CallWriteHeader answer.1.1; CallWrite answer.1.2] w,
     match answer.2 with
     | Some label => recordError label m
     | None => m
     end) ∧
  (answer.1.1 = 200%Z ↔
     Method r = "GET" ∧ get "org" ≠ "" ∧ get "repo" ≠ "" ∧ get "branch" ≠ "" ∧
     ∃ config config' json,
       GetConfig configAgent (mkInfo (get "org") (get "repo") (get "branch")
                                     (get "variant")) = inr config ∧
       ResolveConfig registryAgent config = inr config' ∧
       MarshalIndent config' = inr json ∧
       answer.1.2 = Bytes json) ∧
  (answer.2 = None ↔ answer.1.1 = 200%Z ∨ answer.1.1 = 501%Z) ∧
  answer.1.1 ∈ [200; 400; 500; 501]%Z.
Proof.
  intros answer get. unfold answer, resolved, resolveConfig, missingQuery, Fprintf.
  fold get. unfold orgQuery, repoQuery, branchQuery, variantQuery.
  destruct (decide (Method r ≠ "GET")) as [Hm|Hm%dec_stable].
  { simpl. split; [by destruct (Write _ _)|].
    split; [split; [done|by intros [? _]]|].
    split; [split; [by right|done]|]. set_solver. }
  destruct (decide (get "org" = "")) as [Ho|Ho].
  { simpl. split; [by destruct (Write _ _)|].
    split; [split; [done|by intros (_ & ? & _)]|].
    split; [split; [done|by intros [|]]|]. set_solver. }
  destruct (decide (get "repo" = "")) as [Hr|Hr].
  { simpl. split; [by destruct (Write _ _)|].
    split; [split; [done|by intros (_ & _ & ? & _)]|].
    split; [split; [done|by intros [|]]|]. set_solver. }
  destruct (decide (get "branch" = "")) as [Hb|Hb].
  { simpl. split; [by destruct (Write _ _)|].
    split; [split; [done|by intros (_ & _ & _ & ? & _)]|].
    split; [split; [done|by intros [|]]|]. set_solver. }
  destruct (GetConfig configAgent _) as [e|config] eqn:Hget.
  { simpl. split; [by destruct (Write _ _)|].
    split; [split; [done|by intros (_ & _ & _ & _ & ? & ? & ? & ? & _)]|].
    split; [split; [done|by intros [|]]|]. set_solver. }
  destruct (ResolveConfig registryAgent config) as [e|config'] eqn:Hres.
  { simpl. split; [by destruct (Write _ _)|].
    split; [split; [done|]|].
    { intros (_ & _ & _ & _ & c1 & c2 & j & [= <-] & ? & _). congruence. }
    split; [split; [done|by intros [|]]|]. set_solver. }
  destruct (MarshalIndent config') as [e|json] eqn:Hjson.
  { simpl. split; [by destruct (Write _ _)|].
    split; [split; [done|]|].
    { intros (_ & _ & _ & _ & c1 & c2 & j & [= <-] & ? & ? & _). congruence. }
    split; [split; [done|by intros [|]]|]. set_solver. }
  simpl. split; [by destruct (Write _ _)|].
  split; [split; [|done]|].
  { intros _. repeat split; try done. by exists config, config', json. }
  split; [split; [by left|done]|]. set_solver.
Qed.


End Resolver.

(** ** The further properties on the sample inputs *)

Section MoreExamples.

Local Abbreviation DeleteCollectionCall := DeleteCollection.

Import Fake Samples.
Import (hints) configresolver.

Lemma basePod_mounts_resolved (s : multiStageTestStep) step base :
  basePodOf (Cluster := Fake.Cluster) s step = inr base → mounts_resolved base.
Proof.
  unfold basePodOf. simpl. destruct (resources _); [done|].
  unfold basePod. case_bool_decide; [done|].
  intros [= <-] c rest m [= <- <-]. simpl. by intros ?%elem_of_nil.
Qed.

Lemma generatePods_shape_witness :
  base_pods_well_formed (Cluster := Fake.Cluster) ∧
  ∃ pods,
    generatePods withProfile "registry/initial" "registry/latest" oneBadStep
      = Some (pods, NewAggregate (omap (synthesisError withProfile) oneBadStep)) ∧
    Forall2 (shaped withProfile "registry/initial" "registry/latest")
            (synthesized withProfile oneBadStep) pods.
Proof.
  split; [exact basePod_well_formed|].
  exact (generatePods_shape withProfile "registry/initial" "registry/latest" oneBadStep
           basePod_well_formed).
Defined.

Lemma generatePods_mounts_resolved_witness :
  base_pods_well_formed (Cluster := Fake.Cluster) ∧
  ∃ pods e,
    generatePods withProfile "" "" oneBadStep = Some (pods, e) ∧
    Forall mounts_resolved pods.
Proof.
  split; [exact basePod_well_formed|].
  exact (generatePods_mounts_resolved withProfile "" "" oneBadStep
           basePod_well_formed (basePod_mounts_resolved withProfile)).
Defined.

Lemma runPods_calls_witness :
  dry (start secondFails) = false ∧
  ∃ new k,
    calls (runPods (stepOf "" [] [] []) threePods true (start secondFails)).2
      = calls (start secondFails) ++ new ∧
    pod_calls "ci-op-1" new = true ∧
    submitted new = take k threePods ∧
    (threePods ≠ [] → k ≠ 0%nat) ∧
    (true = false ∨
     (runPods (stepOf "" [] [] []) threePods true (start secondFails)).1 = None →
     k = length threePods).
Proof.
  split; [reflexivity|].
  exact (runPods_calls (stepOf "" [] [] []) threePods true (start secondFails) eq_refl).
Defined.

Lemma Run_only_appends_witness :
  Run (threePhases "") false (start setupFails) = Some (preFailure.1, preFailure.2) ∧
  dry preFailure.2 = false ∧
  subTests (start setupFails) `prefix_of` subTests preFailure.2 ∧
  logged (start setupFails) `prefix_of` logged preFailure.2 ∧
  (false = false → logged preFailure.2 = logged (start setupFails)).
Proof.
  assert (Run (threePhases "") false (start setupFails)
            = Some (preFailure.1, preFailure.2)) as Hrun by (vm_compute; reflexivity).
  split; [exact Hrun|].
  exact (Run_only_appends (threePhases "") false (start setupFails)
           preFailure.1 preFailure.2 Hrun).
Defined.

Lemma Run_submits_in_order_witness :
  resolveProfile (threePhases "") (set_dry false (start setupFails))
    = (None, start setupFails) ∧
  Run (threePhases "") false (start setupFails) = Some (preFailure.1, preFailure.2) ∧
  ∃ k1 k2 k3,
    submitted (calls preFailure.2) =
      submitted (calls (start setupFails))
        ++ take k1 (phasePods (threePhases "") (start setupFails) (pre (threePhases "")))
        ++ take k2 (phasePods (threePhases "") (start setupFails) (test (threePhases "")))
        ++ take k3 (phasePods (threePhases "") (start setupFails) (post (threePhases ""))) ∧
    (k2 ≠ 0%nat →
     k1 = length (phasePods (threePhases "") (start setupFails) (pre (threePhases "")))).
Proof.
  assert (resolveProfile (threePhases "") (set_dry false (start setupFails))
            = (None, start setupFails)) as Hp by (vm_compute; reflexivity).
  assert (Run (threePhases "") false (start setupFails)
            = Some (preFailure.1, preFailure.2)) as Hrun by (vm_compute; reflexivity).
  split; [exact Hp|]. split; [exact Hrun|].
  exact (Run_submits_in_order (threePhases "") (start setupFails) (start setupFails)
           preFailure.1 preFailure.2 Hp Hrun).
Defined.

Lemma Run_no_steps_witness :
  Run (stepOf "" [] [] []) false (start emptyCluster)
    = Some (None, (createSecret (stepOf "" [] [] []) (start emptyCluster)).2).
Proof.
  exact (proj1 (Run_no_steps (stepOf "" [] [] []) false (start emptyCluster)
                  eq_refl eq_refl eq_refl)).
Defined.

Lemma Run_dry_logs_witness :
  Run (threePhases "") true dryStart =
    Some (None,
          logging (SecretObject (coreapi.mkSecret "e2e")
                     :: (PodObject <$> (podsOf (threePhases "") [step "setup" "src"]
                                        ++ podsOf (threePhases "") [step "e2e" "installer"]
                                        ++ podsOf (threePhases "") [step "gather" "cli"])))
                  dryStart).
Proof.
  apply (Run_dry_logs (threePhases "") dryStart dryStart); vm_compute; reflexivity.
Defined.

Lemma cleanup_selects_label_witness :
  base_pods_well_formed (Cluster := Fake.Cluster) ∧
  dry (start secondFails) = false ∧
  cleanup (stepOf "" [] [] []) (start secondFails)
    = (tt, record (DeleteCollectionCall "ci-op-1" "ci.openshift.io/multi-stage-test=e2e"
                                        None)
                  (start secondFails)).
Proof.
  split; [exact basePod_well_formed|]. split; [reflexivity|].
  exact (proj1 (proj2 (cleanup_selects_label (stepOf "" [] [] []) "" "" oneBadStep
                         (start secondFails) basePod_well_formed eq_refl))).
Defined.

Lemma Run_calls_witness :
  Run (threePhases "") false (start setupFails) = Some (preFailure.1, preFailure.2) ∧
  ∃ secretCalls podCalls,
    calls preFailure.2 = calls (start setupFails) ++ secretCalls ++ podCalls ∧
    Forall (λ c, secret_call c = true) secretCalls ∧
    length secretCalls ≤ 3 ∧
    pod_calls "ci-op-1" podCalls = true.
Proof.
  assert (Run (threePhases "") false (start setupFails)
            = Some (preFailure.1, preFailure.2)) as Hrun by (vm_compute; reflexivity).
  split; [exact Hrun|].
  exact (Run_calls (threePhases "") (start setupFails) preFailure.1 preFailure.2 Hrun).
Defined.

Lemma profile_release_images_witness :
  base_pods_well_formed (Cluster := Fake.Cluster) ∧
  profile withProfile ≠ "" ∧
  resolveProfile withProfile (start profileCluster) = (None, profileResolved) ∧
  ∃ pods e,
    generatePods withProfile (releaseInitial profileResolved)
      (releaseLatest profileResolved) (pre withProfile) = Some (pods, e) ∧
    Forall
      (λ pod, ∃ c rest,
         coreapi.Containers pod = c :: rest ∧
         coreapi.mkEnvVar "CLUSTER_TYPE" "aws" ∈ coreapi.Env c ∧
         coreapi.mkEnvVar "RELEASE_IMAGE_INITIAL" "registry/initial" ∈ coreapi.Env c ∧
         coreapi.mkEnvVar "RELEASE_IMAGE_LATEST" "registry/latest" ∈ coreapi.Env c)
      pods.
Proof.
  assert (profile withProfile ≠ "") as Hprofile by (vm_compute; discriminate).
  assert (resolveProfile withProfile (start profileCluster) = (None, profileResolved))
    as Hp by (vm_compute; reflexivity).
  split; [exact basePod_well_formed|]. split; [exact Hprofile|]. split; [exact Hp|].
  exact (profile_release_images withProfile (start profileCluster) profileResolved
           (pre withProfile) basePod_well_formed Hprofile Hp).
Defined.

Lemma handleWithMetrics_records_witness :
  configresolver.handleWithMetrics
    (configresolver.genericHandler (W := configresolver.traceResponseWriter Recorder))
    1500 ([] : Recorder) request noMetrics
    = ([configresolver.CallWriteHeader 404;
        configresolver.CallWrite (configresolver.Bytes "Not Found")],
       configresolver.mkMetrics ∅ [(("404", "/nowhere"), 1500%Z)]
                                  [(("404", "/nowhere"), 9%Z)]).
Proof.
  exact (handleWithMetrics_records
           (configresolver.genericHandler
              (W := configresolver.traceResponseWriter Recorder))
           1500 ([] : Recorder) request noMetrics noMetrics
           [configresolver.CallWriteHeader 404;
            configresolver.CallWrite (configresolver.Bytes "Not Found")] eq_refl).
Defined.

End MoreExamples.
